(** * Quran MCP server: client lifecycle manager and tool handlers

    A shallow embedding of [src/quran/client.ts] (environment resolution,
    client factory, singleton cache with invalidation), of the two tool
    handlers of [src/quran/tools.ts] ([getVerse], [getAvailableTranslations])
    and of the selector parsing of [src/index.ts], followed by the
    properties the specification states about them.

    Conventions of the embedding.
    - A JavaScript string is a [string]; its characters are read as code
      units, and the case conversions are the ASCII ones.
    - An optional field ([x?: T], a value that may be [undefined]) is an
      [option].
    - An integer-valued JavaScript number is a [Z]; it is printed in
      decimal, as a template literal prints it.
    - Object identity (what [===] compares on objects) is an address in an
      explicit heap; [new] allocates the next address.
    - A [try]/[catch] block is a sum: [inl] carries the thrown value. *)

From Stdlib Require Import ZArith String Ascii DecimalString DecimalPos DecimalZ DecimalNat.
From stdpp Require Import base option list strings sorting.

(* ===================================================================== *)
(** * Part I: definitions                                                  *)
(* ===================================================================== *)

(** ** JavaScript primitives used by the sources *)
Module Js.

(** The line feed, written [\n] in the sources. *)
Definition nl : string := String "010"%char EmptyString.

(** The double quote character. *)
Definition dquote : string := String "034"%char EmptyString.

(** Truthiness of a possibly-undefined string: [undefined] and the empty
    string are falsy. *)
Definition truthy (v : option string) : bool :=
  match v with
  | Some s => negb (String.eqb s "")
  | None => false
  end.

(** [v || d] on a possibly-undefined string. *)
Definition or_else (v : option string) (d : string) : string :=
  match v with
  | Some s => if String.eqb s "" then d else s
  | None => d
  end.

Definition toLowerCase_char (c : ascii) : ascii :=
  let n := N_of_ascii c in
  if ((65 <=? n) && (n <=? 90))%N then ascii_of_N (n + 32) else c.

Definition toUpperCase_char (c : ascii) : ascii :=
  let n := N_of_ascii c in
  if ((97 <=? n) && (n <=? 122))%N then ascii_of_N (n - 32) else c.

(** [s.toLowerCase()] *)
Fixpoint toLowerCase (s : string) : string :=
  match s with
  | EmptyString => EmptyString
  | String c s' => String (toLowerCase_char c) (toLowerCase s')
  end.

(** [s.charAt(0).toUpperCase() + s.slice(1)] *)
Definition capitalize (s : string) : string :=
  match s with
  | EmptyString => EmptyString
  | String c s' => String (toUpperCase_char c) s'
  end.

(** An integer printed by a template literal. *)
Definition string_of_Z (n : Z) : string :=
  NilZero.string_of_int (Z.to_int n).

(** An array length printed by a template literal. *)
Definition string_of_nat (n : nat) : string :=
  NilZero.string_of_uint (Nat.to_uint n).

(** The property names every plain object inherits from
    [Object.prototype]: a lookup [obj[k]] on an object literal finds a
    (truthy) inherited value under each of them. *)
Definition Object_prototype_keys : list string :=
  [ "constructor"; "__defineGetter__"; "__defineSetter__"; "hasOwnProperty";
    "__lookupGetter__"; "__lookupSetter__"; "isPrototypeOf";
    "propertyIsEnumerable"; "toString"; "valueOf"; "__proto__";
    "toLocaleString" ].

Definition inherited (k : string) : bool :=
  existsb (String.eqb k) Object_prototype_keys.

(** The concatenation of a list of strings. *)
Definition join (l : list string) : string := foldr String.append "" l.

(** [s] occurs in [t]. *)
Definition contains (t s : string) : Prop :=
  ∃ pre post : string, t = pre +:+ s +:+ post.

End Js.

(** ** [src/quran/client.ts] *)
Module Client.

(** [enum QuranEnvironment] *)
Inductive QuranEnvironment : Type :=
| PRODUCTION
| PRE_PRODUCTION.

(** The string each member of the enum is at run time. *)
Definition QuranEnvironment_value (e : QuranEnvironment) : string :=
  match e with
  | PRODUCTION => "production"
  | PRE_PRODUCTION => "pre-production"
  end.

(** [Language] is an enum of the SDK; only its member [ENGLISH] is used.
    Its members are non-empty strings at run time. *)
Definition Language : Type := string.
Definition Language_ENGLISH : Language := "en".

(** [interface QuranConfig] *)
Record QuranConfig : Type := {
  clientId : string;
  clientSecret : string;
  defaultLanguage : option Language;
  environment : option QuranEnvironment
}.

Record EndpointPair : Type := {
  contentBaseUrl : string;
  authBaseUrl : string
}.

(** [const ENVIRONMENT_CONFIG], indexed by a member of the enum. *)
Definition ENVIRONMENT_CONFIG (e : QuranEnvironment) : EndpointPair :=
  match e with
  | PRODUCTION =>
      {| contentBaseUrl := "https://apis.quran.foundation";
         authBaseUrl := "https://oauth2.quran.foundation" |}
  | PRE_PRODUCTION =>
      {| contentBaseUrl := "https://apis-prelive.quran.foundation";
         authBaseUrl := "https://prelive-oauth2.quran.foundation" |}
  end.

(** [config.environment || QuranEnvironment.PRODUCTION]: both members of
    the enum are non-empty strings, hence truthy. *)
Definition environment_or_default (config : QuranConfig) : QuranEnvironment :=
  match environment config with
  | Some e => e
  | None => PRODUCTION
  end.

(** The object literal passed to [new QuranClient(...)]. *)
Record QuranClientOptions : Type := {
  opt_clientId : string;
  opt_clientSecret : string;
  opt_contentBaseUrl : string;
  opt_authBaseUrl : string;
  opt_defaults_language : Language
}.

Definition createQuranClient_options (config : QuranConfig) : QuranClientOptions :=
  let environment := environment_or_default config in
  let envConfig := ENVIRONMENT_CONFIG environment in
  {| opt_clientId := clientId config;
     opt_clientSecret := clientSecret config;
     opt_contentBaseUrl := contentBaseUrl envConfig;
     opt_authBaseUrl := authBaseUrl envConfig;
     opt_defaults_language := Js.or_else (defaultLanguage config) Language_ENGLISH |}.

(** A client object of the SDK as this module sees it: the options it was
    constructed with, and the access token it may hold. *)
Record QuranClientObject : Type := {
  options : QuranClientOptions;
  accessToken : option string
}.

(** A client handle is the address of a client object. *)
Definition handle : Type := nat.

(** The module state: the objects allocated so far and the two
    module-level cells [cachedClient] and [cachedConfig] ([None] is
    [null]). *)
Record Store : Type := {
  heap : list QuranClientObject;
  cachedClient : option handle;
  cachedConfig : option string
}.

Definition initial : Store :=
  {| heap := []; cachedClient := None; cachedConfig := None |}.

Definition set_cachedClient (v : option handle) (st : Store) : Store :=
  {| heap := heap st; cachedClient := v; cachedConfig := cachedConfig st |}.

Definition set_cachedConfig (v : option string) (st : Store) : Store :=
  {| heap := heap st; cachedClient := cachedClient st; cachedConfig := v |}.

(** [new QuranClient(opts)]: a fresh object, holding no token: the SDK
    authenticates on the first request only. *)
Definition new_QuranClient (opts : QuranClientOptions) (st : Store) : handle * Store :=
  (length (heap st),
   {| heap := heap st ++ [ {| options := opts; accessToken := None |} ];
      cachedClient := cachedClient st;
      cachedConfig := cachedConfig st |}).

(** [client.clearCachedToken()] of the SDK. *)
Definition clearCachedToken (h : handle) (st : Store) : Store :=
  {| heap := alter (λ o, {| options := options o; accessToken := None |}) h (heap st);
     cachedClient := cachedClient st;
     cachedConfig := cachedConfig st |}.

(** The token acquisition of the SDK, an external dependency: on a
    content request the client exchanges its credentials for an access
    token and keeps it. *)
Definition acquireToken (h : handle) (token : string) (st : Store) : Store :=
  {| heap := alter (λ o, {| options := options o; accessToken := Some token |}) h (heap st);
     cachedClient := cachedClient st;
     cachedConfig := cachedConfig st |}.

(** [export function createQuranClient(config)] *)
Definition createQuranClient (config : QuranConfig) (st : Store) : handle * Store :=
  new_QuranClient (createQuranClient_options config) st.

(** [function getConfigKey(config)] *)
Definition getConfigKey (config : QuranConfig) : string :=
  clientId config +:+ ":" +:+ QuranEnvironment_value (environment_or_default config).

(** [export function getQuranClient(config)] *)
Definition getQuranClient (config : QuranConfig) (st : Store) : handle * Store :=
  let configKey := getConfigKey config in
  let miss :=
    let '(h, st1) := createQuranClient config st in
    (h, set_cachedConfig (Some configKey) (set_cachedClient (Some h) st1)) in
  match cachedClient st with
  | Some h =>
      if decide (cachedConfig st = Some configKey) then (h, st) else miss
  | None => miss
  end.

(** [export function clearClientCache()] *)
Definition clearClientCache (st : Store) : Store :=
  let st1 :=
    match cachedClient st with
    | Some h => set_cachedClient None (clearCachedToken h st)
    | None => st
    end in
  set_cachedConfig None st1.

(** The operations a process performs on the module, in any order. *)
Inductive Op : Type :=
| OpGet (config : QuranConfig)
| OpClear
| OpRequest (h : handle) (token : string).

Definition step (st : Store) (o : Op) : Store :=
  match o with
  | OpGet config => snd (getQuranClient config st)
  | OpClear => clearClientCache st
  | OpRequest h token => acquireToken h token st
  end.

Definition run (ops : list Op) : Store := foldl step initial ops.

(** The states of the module a process can be in. *)
Inductive reachable : Store → Prop :=
| reachable_initial : reachable initial
| reachable_step st o : reachable st → reachable (step st o).

(** The cached handle, when there is one, is the address of an allocated
    client object. *)
Definition cache_valid (st : Store) : Prop :=
  ∀ h, cachedClient st = Some h → h < length (heap st).

(** *** The run-time view of the environment lookup

    The type [QuranEnvironment] is erased at run time: the field holds a
    string or [undefined], and [ENVIRONMENT_CONFIG[environment]] is a
    property lookup on an object literal. *)
Inductive Property : Type :=
| OwnEndpoints (p : EndpointPair)
| Inherited
| Undefined.

Definition ENVIRONMENT_CONFIG_lookup (key : string) : Property :=
  if String.eqb key "production" then OwnEndpoints (ENVIRONMENT_CONFIG PRODUCTION)
  else if String.eqb key "pre-production" then OwnEndpoints (ENVIRONMENT_CONFIG PRE_PRODUCTION)
  else if Js.inherited key then Inherited
  else Undefined.

Inductive Completion (A : Type) : Type :=
| Normal (a : A)
| TypeError.
Arguments Normal {A} a.
Arguments TypeError {A}.

(** Lines 92-99 of [createQuranClient] on an untyped [environment]: the
    two endpoint fields handed to the SDK ([None] is [undefined]), or the
    [TypeError] of reading a property of [undefined]. *)
Definition createQuranClient_endpoints (environment : option string)
  : Completion (option string * option string) :=
  let environment := Js.or_else environment (QuranEnvironment_value PRODUCTION) in
  match ENVIRONMENT_CONFIG_lookup environment with
  | OwnEndpoints envConfig =>
      Normal (Some (contentBaseUrl envConfig), Some (authBaseUrl envConfig))
  | Inherited => Normal (None, None)
  | Undefined => TypeError
  end.

End Client.

(** ** [src/index.ts]: the environment selector *)
Module Index.

(** [const quranEnv = quranEnvStr === "pre-production" ? ... : ...], where
    [quranEnvStr] is [QURAN_ENV?.toLowerCase()]. *)
Definition quranEnv (QURAN_ENV : option string) : Client.QuranEnvironment :=
  match Js.toLowerCase <$> QURAN_ENV with
  | Some quranEnvStr =>
      if String.eqb quranEnvStr "pre-production"
      then Client.PRE_PRODUCTION else Client.PRODUCTION
  | None => Client.PRODUCTION
  end.

(** [this.env], as [init] reads it. *)
Record Env : Type := {
  QURAN_ENV : option string;
  QURAN_CLIENT_ID : string;
  QURAN_CLIENT_SECRET : string
}.

(** [type Props] *)
Record Props : Type := {
  login : string;
  name : string;
  email : string;
  accessToken : string
}.

(** [const ALLOWED_USERNAMES = new Set<string>([ ])]: the set is built
    empty and nothing adds to it. *)
Definition ALLOWED_USERNAMES : list string := [].

(** The configuration [init] hands to [getQuranClient]. *)
Definition init_config (env : Env) : Client.QuranConfig :=
  {| Client.clientId := QURAN_CLIENT_ID env;
     Client.clientSecret := QURAN_CLIENT_SECRET env;
     Client.defaultLanguage := Some Client.Language_ENGLISH;
     Client.environment := Some (quranEnv (QURAN_ENV env)) |}.

(** The names [init] registers with [this.server.tool], in order. *)
Definition init_tools (props : Props) : list string :=
  [ "getVerse"; "getAvailableTranslations"; "add"; "userInfoOctokit" ]
  ++ (if existsb (String.eqb (login props)) ALLOWED_USERNAMES
      then [ "generateImage" ] else []).

(** [async init()]: the client handle the two Quran tools close over and
    the names of the registered tools. *)
Definition init (env : Env) (props : Props) (st : Client.Store)
  : (Client.handle * list string) * Client.Store :=
  let '(quranClient, st1) := Client.getQuranClient (init_config env) st in
  ((quranClient, init_tools props), st1).

End Index.

(** ** The start of the test scripts

    [runTests] of [src/quran/test.ts], [test_raw.ts] and
    [test_resources.ts] begin alike: they read the process environment,
    leave with exit code 1 when a credential is missing, and construct a
    client with [createQuranClient] otherwise. *)
Module Scripts.

(** [process.env] *)
Record ProcessEnv : Type := {
  QURAN_CLIENT_ID : option string;
  QURAN_CLIENT_SECRET : option string;
  QURAN_ENV : option string
}.

Inductive Startup : Type :=
| Exit (code : Z)
| Started (client : Client.handle) (st : Client.Store).

(** [runTests] up to and including the call of [createQuranClient]. *)
Definition runTests_start (env : ProcessEnv) (st : Client.Store) : Startup :=
  let clientId := QURAN_CLIENT_ID env in
  let clientSecret := QURAN_CLIENT_SECRET env in
  let envType :=
    match Js.toLowerCase <$> QURAN_ENV env with
    | Some s => if String.eqb s "pre-production"
                then Client.PRE_PRODUCTION else Client.PRODUCTION
    | None => Client.PRODUCTION
    end in
  if negb (Js.truthy clientId) || negb (Js.truthy clientSecret)
  then Exit 1
  else
    let '(client, st1) :=
      Client.createQuranClient
        {| Client.clientId := Js.or_else clientId "";
           Client.clientSecret := Js.or_else clientSecret "";
           Client.defaultLanguage := Some Client.Language_ENGLISH;
           Client.environment := Some envType |} st in
    Started client st1.

End Scripts.

(** ** [src/quran/tools.ts] *)
Module Tools.

Import Js.

(** *** Values exchanged with the SDK client *)

(** What a [catch (error: any)] clause reads of the value it receives: an
    error object, with the two fields the handlers look at. The SDK and
    the runtime throw objects; [status], when present, is an HTTP status
    number or a string. *)
Inductive JsStatus : Type :=
| StatusNumber (n : Z)
| StatusString (s : string).

Record JsError : Type := {
  message : option string;
  status : option JsStatus
}.

Record Translation : Type := {
  tr_resourceName : option string;
  tr_languageName : option string;
  tr_text : string
}.

Record Tafsir : Type := {
  tf_resourceName : option string;
  tf_text : string
}.

Record Word : Type := {
  w_textUthmani : option string;
  w_textImlaei : option string
}.

Record Verse : Type := {
  verseKey : string;
  textUthmani : string;
  chapterId : Z;
  verseNumber : Z;
  pageNumber : Z;
  juzNumber : Z;
  translations : option (list Translation);
  tafsirs : option (list Tafsir);
  words : option (list Word)
}.

(** An entry of the translation catalogue. *)
Record TranslationResource : Type := {
  id : Z;
  name : string;
  authorName : option string;
  languageName : option string
}.

(** The options object [getVerse] hands to [client.verses.findByKey]. *)
Record FindByKeyOptions : Type := {
  opt_translations : option (list Z);
  opt_words : bool;
  opt_tafsirs : option (list Z);
  opt_fields_textUthmani : bool
}.

(** The two operations of the client the handlers use; [inl] is a thrown
    error (a rejected promise). *)
Record QuranClient : Type := {
  verses_findByKey : string → FindByKeyOptions → JsError + Verse;
  resources_findAllTranslations : unit → JsError + list TranslationResource
}.

(** The calls a handler makes on the client, with their arguments. *)
Inductive ClientCall : Type :=
| Call_verses_findByKey (key : string) (opts : FindByKeyOptions)
| Call_resources_findAllTranslations.

(** *** The response envelope *)

Record ContentBlock : Type := {
  type : string;
  text : string
}.

(** [isError] is an optional field: the handlers set it to [true] on
    failure and leave it out otherwise. *)
Record Envelope : Type := {
  content : list ContentBlock;
  isError : option bool
}.

(** The flag as the receiver of an envelope reads it: a field left out
    is a falsy [undefined]. *)
Definition isErrorFlag (e : Envelope) : bool :=
  match isError e with
  | Some b => b
  | None => false
  end.

Definition text_envelope (response : string) : Envelope :=
  {| content := [ {| type := "text"; text := response |} ]; isError := None |}.

Definition error_envelope (response : string) : Envelope :=
  {| content := [ {| type := "text"; text := response |} ]; isError := Some true |}.

(** The text of the first content block, [result.content[0].text]. *)
Definition envelope_text (e : Envelope) : string :=
  match content e with
  | b :: _ => text b
  | [] => ""
  end.

(** [error.message || "Unknown error occurred"] *)
Definition errorMessage (error : JsError) : string :=
  or_else (message error) "Unknown error occurred".

(** [error.status || "error"], as the template literal prints it. *)
Definition errorType (error : JsError) : string :=
  match status error with
  | Some (StatusNumber n) => if (n =? 0)%Z then "error" else string_of_Z n
  | Some (StatusString s) => if String.eqb s "" then "error" else s
  | None => "error"
  end.

(** [arr.forEach((x, index) => ...)] threading the accumulated
    [response]. *)
Fixpoint forEach_indexed {A : Type} (f : string → nat → A → string)
    (index : nat) (l : list A) (response : string) : string :=
  match l with
  | [] => response
  | x :: l' => forEach_indexed f (S index) l' (f response index x)
  end.

(** *** [getVerse] *)

Record GetVerseParams : Type := {
  p_verseKey : string;
  p_translations : option (list Z);
  p_includeWords : bool;
  p_includeTafsir : bool;
  p_tafsirIds : option (list Z)
}.

(** The second argument of the call of [findByKey]; an array is truthy,
    so [includeTafsir && tafsirIds ? tafsirIds : undefined] is
    [tafsirIds] exactly when the flag is set. *)
Definition getVerse_options (params : GetVerseParams) : FindByKeyOptions :=
  {| opt_translations := p_translations params;
     opt_words := p_includeWords params;
     opt_tafsirs :=
       if p_includeTafsir params
       then match p_tafsirIds params with
            | Some tafsirIds => Some tafsirIds
            | None => None
            end
       else None;
     opt_fields_textUthmani := true |}.

Definition getVerse_translation (response : string) (translation : Translation) : string :=
  (response +:+ nl +:+ "*" +:+ or_else (tr_resourceName translation) "Translation"
     +:+ "* (" +:+ or_else (tr_languageName translation) "N/A" +:+ "):" +:+ nl)
  +:+ tr_text translation +:+ nl.

Definition getVerse_tafsir (response : string) (tafsir : Tafsir) : string :=
  (response +:+ nl +:+ "*" +:+ or_else (tf_resourceName tafsir) "Tafsir" +:+ "*:" +:+ nl)
  +:+ tf_text tafsir +:+ nl.

Definition getVerse_word (response : string) (index : nat) (word : Word) : string :=
  response +:+ string_of_nat (index + 1) +:+ ". "
    +:+ or_else (w_textUthmani word) (or_else (w_textImlaei word) "N/A")
    +:+ nl.

(** The body of the [try] block after the call returned [verse]. *)
Definition getVerse_response (includeWords : bool) (verse : Verse) : string :=
  let response := "📖 **Verse " +:+ verseKey verse +:+ "**" +:+ nl +:+ nl in
  let response := response +:+ "**Arabic (Uthmani):**" +:+ nl +:+ textUthmani verse +:+ nl +:+ nl in
  let response := response +:+ "**Metadata:**" +:+ nl in
  let response := response +:+ "- Chapter: " +:+ string_of_Z (chapterId verse) +:+ nl in
  let response := response +:+ "- Verse Number: " +:+ string_of_Z (verseNumber verse) +:+ nl in
  let response := response +:+ "- Page: " +:+ string_of_Z (pageNumber verse) +:+ nl in
  let response := response +:+ "- Juz: " +:+ string_of_Z (juzNumber verse) +:+ nl +:+ nl in
  let response :=
    match translations verse with
    | Some ((_ :: _) as ts) =>
        foldl getVerse_translation (response +:+ "**Translations:**" +:+ nl) ts +:+ nl
    | _ => response
    end in
  let response :=
    match tafsirs verse with
    | Some ((_ :: _) as ts) =>
        foldl getVerse_tafsir (response +:+ "**Tafsir (Commentary):**" +:+ nl) ts +:+ nl
    | _ => response
    end in
  match includeWords, words verse with
  | true, Some ((_ :: _) as ws) =>
      forEach_indexed getVerse_word 0 ws (response +:+ "**Word-by-Word Breakdown:**" +:+ nl)
  | _, _ => response
  end.

(** The text of the [catch] clause. *)
Definition getVerse_error_text (verseKey : string) (error : JsError) : string :=
  "❌ **Error fetching verse " +:+ verseKey +:+ "**" +:+ nl +:+ nl
    +:+ "Error Type: " +:+ errorType error +:+ nl
    +:+ "Message: " +:+ errorMessage error +:+ nl +:+ nl
    +:+ "Please check the verse key format (should be 'chapter:verse', e.g., '2:255') and try again.".

(** [export async function getVerse(client, params)]: the calls made on
    the client and the envelope the promise resolves to. *)
Definition getVerse (client : QuranClient) (params : GetVerseParams)
  : list ClientCall * Envelope :=
  let verseKey := p_verseKey params in
  let opts := getVerse_options params in
  ([Call_verses_findByKey verseKey opts],
   match verses_findByKey client verseKey opts with
   | inr verse => text_envelope (getVerse_response (p_includeWords params) verse)
   | inl error => error_envelope (getVerse_error_text verseKey error)
   end).

(** *** What the text of a verse consists of

    The four parts [getVerse_response] accumulates, each written as the
    text it adds. *)

Definition verse_head (verse : Verse) : string :=
  "📖 **Verse " +:+ verseKey verse +:+ "**" +:+ nl +:+ nl
    +:+ "**Arabic (Uthmani):**" +:+ nl +:+ textUthmani verse +:+ nl +:+ nl
    +:+ "**Metadata:**" +:+ nl
    +:+ "- Chapter: " +:+ string_of_Z (chapterId verse) +:+ nl
    +:+ "- Verse Number: " +:+ string_of_Z (verseNumber verse) +:+ nl
    +:+ "- Page: " +:+ string_of_Z (pageNumber verse) +:+ nl
    +:+ "- Juz: " +:+ string_of_Z (juzNumber verse) +:+ nl +:+ nl.

Definition translations_section (verse : Verse) : string :=
  match translations verse with
  | Some ((_ :: _) as ts) =>
      "**Translations:**" +:+ nl +:+ join (getVerse_translation "" <$> ts) +:+ nl
  | _ => ""
  end.

Definition tafsirs_section (verse : Verse) : string :=
  match tafsirs verse with
  | Some ((_ :: _) as ts) =>
      "**Tafsir (Commentary):**" +:+ nl +:+ join (getVerse_tafsir "" <$> ts) +:+ nl
  | _ => ""
  end.

Definition words_section (includeWords : bool) (verse : Verse) : string :=
  match includeWords, words verse with
  | true, Some ((_ :: _) as ws) =>
      "**Word-by-Word Breakdown:**" +:+ nl
        +:+ join (imap (λ index, getVerse_word "" index) ws)
  | _, _ => ""
  end.

(** *** [getAvailableTranslations] *)

Record GetAvailableTranslationsParams : Type := {
  language : option string
}.

(** The predicate of [allTranslations.filter(...)]:
    [t.languageName?.toLowerCase() === language.toLowerCase()]. *)
Definition matches_language (language : string) (t : TranslationResource) : bool :=
  match languageName t with
  | Some languageName => String.eqb (toLowerCase languageName) (toLowerCase language)
  | None => false
  end.

(** [filteredTranslations] *)
Definition filterTranslations (language : option string)
    (allTranslations : list TranslationResource) : list TranslationResource :=
  match language with
  | Some l => if truthy language then List.filter (matches_language l) allTranslations
              else allTranslations
  | None => allTranslations
  end.

(** An element pushed on a group: [{ id, name, author }]. *)
Record GroupItem : Type := {
  g_id : Z;
  g_name : string;
  g_author : option string
}.

Definition group_item (t : TranslationResource) : GroupItem :=
  {| g_id := id t; g_name := name t; g_author := authorName t |}.

(** [const lang = t.languageName || "unknown"] *)
Definition group_key (t : TranslationResource) : string :=
  or_else (languageName t) "unknown".

(** The object [byLanguage], as its own properties in insertion order. *)
Definition Groups : Type := list (string * list GroupItem).

(** [byLanguage[lang]] on an own property. *)
Fixpoint own_property (byLanguage : Groups) (lang : string) : option (list GroupItem) :=
  match byLanguage with
  | [] => None
  | (k, items) :: rest =>
      if String.eqb k lang then Some items else own_property rest lang
  end.

(** [if (!byLanguage[lang]) byLanguage[lang] = []; byLanguage[lang].push(item)]
    when [lang] is not an inherited property name. *)
Fixpoint push_item (lang : string) (item : GroupItem) (byLanguage : Groups) : Groups :=
  match byLanguage with
  | [] => [(lang, [item])]
  | (k, items) :: rest =>
      if String.eqb k lang then (k, items ++ [item]) :: rest
      else (k, items) :: push_item lang item rest
  end.

(** What the runtime throws when [byLanguage[lang]] is an inherited value,
    which is truthy and has no method [push]. *)
Definition push_TypeError : JsError :=
  {| message := Some "byLanguage[lang].push is not a function"; status := None |}.

(** One iteration of the grouping [forEach]; a thrown error ends the
    loop. *)
Definition group_step (acc : JsError + Groups) (t : TranslationResource) : JsError + Groups :=
  match acc with
  | inl error => inl error
  | inr byLanguage =>
      let lang := group_key t in
      if inherited lang then inl push_TypeError
      else inr (push_item lang (group_item t) byLanguage)
  end.

Definition groupByLanguage (filteredTranslations : list TranslationResource)
  : JsError + Groups :=
  foldl group_step (inr []) filteredTranslations.

(** [Object.keys(byLanguage).sort()]: the default order of [sort] on
    strings is the lexicographic order of their code units. The keys are
    pairwise distinct, so the order [Object.keys] lists them in does not
    show in the result. *)
Definition sorted_keys (byLanguage : Groups) : list string :=
  merge_sort String.le (byLanguage.*1).

Definition render_group_item (response : string) (translation : GroupItem) : string :=
  let response := response +:+ "  • ID: " +:+ string_of_Z (g_id translation)
                    +:+ " - " +:+ g_name translation in
  let response := if truthy (g_author translation)
                  then response +:+ " by " +:+ or_else (g_author translation) ""
                  else response in
  response +:+ nl.

(** The body of the [forEach] over the sorted keys. *)
Definition render_group (byLanguage : Groups) (response : string) (lang : string) : string :=
  let items := default [] (own_property byLanguage lang) in
  let response := response +:+ "**" +:+ capitalize lang +:+ "** ("
                    +:+ string_of_nat (length items) +:+ " translations):" +:+ nl in
  foldl render_group_item response items +:+ nl.

Definition render_flat_item (response : string) (translation : TranslationResource) : string :=
  let response := response +:+ "• **ID: " +:+ string_of_Z (id translation)
                    +:+ "** - " +:+ name translation in
  let response := if truthy (authorName translation)
                  then response +:+ " by " +:+ or_else (authorName translation) ""
                  else response in
  response +:+ nl.

Definition usage_example (exampleId : Z) : string :=
  nl +:+ "**Usage Example:**" +:+ nl
    +:+ "To fetch a verse with translation ID " +:+ string_of_Z exampleId +:+ ", use:" +:+ nl
    +:+ "```" +:+ nl +:+ "getVerse({ verseKey: " +:+ dquote +:+ "2:255" +:+ dquote
    +:+ ", translations: [" +:+ string_of_Z exampleId +:+ "] })" +:+ nl +:+ "```" +:+ nl.

Definition header (language : option string) (count : nat) : string :=
  if truthy language
  then "📚 **Available " +:+ capitalize (or_else language "") +:+ " Translations** ("
         +:+ string_of_nat count +:+ " found)" +:+ nl +:+ nl
  else "📚 **All Available Translations** (" +:+ string_of_nat count +:+ " total)" +:+ nl +:+ nl.

Definition no_translations (language : option string) : string :=
  "No translations found"
    +:+ (if truthy language then " for language: " +:+ or_else language "" else "")
    +:+ "." +:+ nl +:+ nl
    +:+ "Try using common languages like: english, urdu, arabic, spanish, french, turkish, bengali, indonesian, russian, persian".

(** The body of the [try] block after the call returned
    [allTranslations]: the [response] text, or the error thrown on the
    way. *)
Definition getAvailableTranslations_response (language : option string)
    (allTranslations : list TranslationResource) : JsError + string :=
  let filteredTranslations := filterTranslations language allTranslations in
  let response := header language (length filteredTranslations) in
  match filteredTranslations with
  | [] => inr (response +:+ no_translations language)
  | first :: _ =>
      if negb (truthy language)
      then match groupByLanguage filteredTranslations with
           | inl error => inl error
           | inr byLanguage =>
               inr (foldl (render_group byLanguage) response (sorted_keys byLanguage)
                      +:+ usage_example (id first))
           end
      else inr ((foldl render_flat_item response filteredTranslations +:+ nl)
                  +:+ usage_example (id first))
  end.

Definition getAvailableTranslations_error_text (error : JsError) : string :=
  "❌ **Error fetching translations**" +:+ nl +:+ nl
    +:+ "Error Type: " +:+ errorType error +:+ nl
    +:+ "Message: " +:+ errorMessage error +:+ nl +:+ nl
    +:+ "Please try again.".

(** The whole [try] block. *)
Definition getAvailableTranslations_try (client : QuranClient)
    (params : GetAvailableTranslationsParams) : JsError + string :=
  match resources_findAllTranslations client () with
  | inl error => inl error
  | inr allTranslations => getAvailableTranslations_response (language params) allTranslations
  end.

(** [export async function getAvailableTranslations(client, params)] *)
Definition getAvailableTranslations (client : QuranClient)
    (params : GetAvailableTranslationsParams) : list ClientCall * Envelope :=
  ([Call_resources_findAllTranslations],
   match getAvailableTranslations_try client params with
   | inr response => text_envelope response
   | inl error => error_envelope (getAvailableTranslations_error_text error)
   end).

(** *** What the grouping computes *)

(** The entries of [ts] that go under the key [k]. *)
Definition entries_of (k : string) (ts : list TranslationResource)
  : list TranslationResource :=
  List.filter (λ t, String.eqb (group_key t) k) ts.

(** What [byLanguage] holds once the entries [ts] went through the loop:
    under each key, the entries of that key in the order of [ts], and no
    key without an entry. *)
Definition groups_of (ts : list TranslationResource) (b : Groups) : Prop :=
  NoDup b.*1 ∧
  ∀ k, own_property b k
       = match entries_of k ts with
         | [] => None
         | (_ :: _) as m => Some (group_item <$> m)
         end.

End Tools.

(** ** Sample configurations, clients and requests *)
Module Samples.

Import Client Tools.

Definition sample_config : QuranConfig :=
  {| clientId := "app-1"; clientSecret := "s3cret";
     defaultLanguage := None; environment := None |}.

Definition rotated_secret_config : QuranConfig :=
  {| clientId := "app-1"; clientSecret := "n3w-s3cret";
     defaultLanguage := Some "ur"; environment := Some PRODUCTION |}.

Definition prelive_config : QuranConfig :=
  {| clientId := "app-1"; clientSecret := "s3cret";
     defaultLanguage := None; environment := Some PRE_PRODUCTION |}.

(** A small catalogue; its last entry has no language name. *)
Definition sample_catalogue : list TranslationResource :=
  [ {| id := 20; name := "Saheeh International"; authorName := None;
       languageName := Some "english" |};
    {| id := 234; name := "Fatah Muhammad Jalandhari"; authorName := Some "Jalandhari";
       languageName := Some "urdu" |};
    {| id := 85; name := "M.A.S. Abdel Haleem"; authorName := Some "Abdel Haleem";
       languageName := Some "English" |};
    {| id := 7; name := "Untitled"; authorName := None; languageName := None |} ].

(** An upstream that rejects every verse key. *)
Definition not_found : JsError :=
  {| message := Some "Verse not found"; status := Some (StatusNumber 404) |}.

Definition sample_client : QuranClient :=
  {| verses_findByKey := λ _ _, inl not_found;
     resources_findAllTranslations := λ _, inr sample_catalogue |}.

Definition sample_params : GetVerseParams :=
  {| p_verseKey := "2:999"; p_translations := Some [20%Z]; p_includeWords := false;
     p_includeTafsir := false; p_tafsirIds := Some [171%Z] |}.

(** A client whose verse lookup succeeds. *)
Definition ayat_al_kursi : Verse :=
  {| verseKey := "2:255"; textUthmani := "..."; chapterId := 2; verseNumber := 255;
     pageNumber := 42; juzNumber := 3;
     translations := None; tafsirs := None; words := None |}.

Definition serving_client : QuranClient :=
  {| verses_findByKey := λ _ _, inr ayat_al_kursi;
     resources_findAllTranslations := λ _, inr sample_catalogue |}.

(** A verse that comes with three words. *)
Definition three_words : Verse :=
  {| verseKey := "112:1"; textUthmani := "..."; chapterId := 112; verseNumber := 1;
     pageNumber := 604; juzNumber := 30;
     translations := None; tafsirs := None;
     words := Some [ {| w_textUthmani := Some "qul"; w_textImlaei := None |};
                     {| w_textUthmani := None; w_textImlaei := Some "huwa" |};
                     {| w_textUthmani := None; w_textImlaei := None |} ] |}.

(** An upstream that fails with an error carrying neither message nor
    status. *)
Definition bare_failure_client : QuranClient :=
  {| verses_findByKey := λ _ _, inl {| message := None; status := None |};
     resources_findAllTranslations :=
       λ _, inl {| message := None; status := None |} |}.

(** A client whose catalogue call fails, and one with an empty catalogue. *)
Definition failing_client : QuranClient :=
  {| verses_findByKey := λ _ _, inl not_found;
     resources_findAllTranslations :=
       λ _, inl {| message := None; status := Some (StatusNumber 0) |} |}.

Definition empty_client : QuranClient :=
  {| verses_findByKey := λ _ _, inl not_found;
     resources_findAllTranslations := λ _, inr [] |}.

(** Two readings of the worker environment and a signed-in user. *)
Definition worker_env : Index.Env :=
  {| Index.QURAN_ENV := Some "Pre-Production";
     Index.QURAN_CLIENT_ID := "app-1";
     Index.QURAN_CLIENT_SECRET := "s3cret" |}.

Definition worker_env_rotated : Index.Env :=
  {| Index.QURAN_ENV := Some "pre-production";
     Index.QURAN_CLIENT_ID := "app-1";
     Index.QURAN_CLIENT_SECRET := "n3w-s3cret" |}.

Definition some_user : Index.Props :=
  {| Index.login := "octocat"; Index.name := "Octo Cat";
     Index.email := "octocat@example.org"; Index.accessToken := "gho_x" |}.

End Samples.

(* ===================================================================== *)
(** * Part II: properties                                                  *)
(* ===================================================================== *)

(** ** Strings *)
Section strings.

Lemma app_assoc_string (a b c : string) : (a +:+ b) +:+ c = a +:+ b +:+ c.
Proof.
  induction a as [|x a IH]; [done|].
  change (String x ((a +:+ b) +:+ c) = String x (a +:+ b +:+ c)). by rewrite IH.
Qed.

Lemma app_nil_r_string (a : string) : a +:+ "" = a.
Proof.
  induction a as [|x a IH]; [done|].
  change (String x (a +:+ "") = String x a). by rewrite IH.
Qed.

Lemma list_ascii_of_string_app (a b : string) :
  list_ascii_of_string (a +:+ b) = list_ascii_of_string a ++ list_ascii_of_string b.
Proof.
  induction a as [|x a IH]; [done|].
  change (x :: list_ascii_of_string (a +:+ b)
          = x :: list_ascii_of_string a ++ list_ascii_of_string b).
  by rewrite IH.
Qed.

Lemma list_ascii_of_string_inj (a b : string) :
  list_ascii_of_string a = list_ascii_of_string b → a = b.
Proof.
  intros H. rewrite <- (string_of_list_ascii_of_string a).
  rewrite <- (string_of_list_ascii_of_string b). by rewrite H.
Qed.

(** Two strings that end in suffixes of one length agree on the suffix
    and on what precedes it. *)
Lemma app_inj_suffix (a b s t : string) :
  String.length s = String.length t →
  a +:+ s = b +:+ t → a = b ∧ s = t.
Proof.
  intros Hlen Heq. apply (f_equal list_ascii_of_string) in Heq.
  rewrite !list_ascii_of_string_app in Heq.
  apply app_inj_2 in Heq as [Ha Hs].
  - split; by apply list_ascii_of_string_inj.
  - clear Heq. revert t Hlen. induction s as [|x s IH]; intros [|y t] Hlen;
      simplify_eq/=; [done|]. f_equal. by apply IH.
Qed.

(** What the template literal prints for an integer is its decimal
    numeral: read back as a numeral, it is the integer. *)
Lemma string_of_Z_parses (n : Z) :
  Z.of_int <$> NilZero.int_of_string (Js.string_of_Z n) = Some n.
Proof.
  unfold Js.string_of_Z. rewrite NilZero.isi.
  - cbn. by rewrite DecimalZ.of_to.
  - destruct n as [|p|p]; cbn; [done| |done]. intros [= H].
    by apply DecimalPos.Unsigned.to_uint_nonnil in H.
  - destruct n as [|p|p]; cbn; [done|done|]. intros [= H].
    by apply DecimalPos.Unsigned.to_uint_nonnil in H.
Qed.

Lemma string_of_nat_parses (n : nat) :
  Nat.of_uint <$> NilZero.uint_of_string (Js.string_of_nat n) = Some n.
Proof.
  unfold Js.string_of_nat. rewrite NilZero.usu.
  - cbn. by rewrite DecimalNat.Unsigned.of_to.
  - intros H. pose proof (DecimalNat.Unsigned.to_of (Nat.to_uint n)) as Hn.
    rewrite DecimalNat.Unsigned.of_to, H in Hn. discriminate Hn.
Qed.

(** Lower-casing moves the codes 65 to 90 of the capital letters up by
    32 and leaves every other character alone. *)
Lemma toLowerCase_codes (s : string) :
  N_of_ascii <$> list_ascii_of_string (Js.toLowerCase s)
  = (λ n, if ((65 <=? n) && (n <=? 90))%N then (n + 32)%N else n)
      <$> (N_of_ascii <$> list_ascii_of_string s).
Proof.
  induction s as [|c s IH]; [done|]. cbn [Js.toLowerCase list_ascii_of_string fmap list_fmap].
  f_equal; [|exact IH]. by destruct c as [[] [] [] [] [] [] [] []].
Qed.

Lemma contains_intro (pre s post : string) : Js.contains (pre +:+ s +:+ post) s.
Proof. by exists pre, post. Qed.

Lemma contains_refl (s : string) : Js.contains s s.
Proof. exists "", "". by rewrite app_nil_r_string. Qed.

Lemma contains_app_l (t u s : string) : Js.contains t s → Js.contains (t +:+ u) s.
Proof.
  intros (pre & post & ->). exists pre, (post +:+ u).
  by rewrite !app_assoc_string.
Qed.

Lemma contains_app_r (t u s : string) : Js.contains u s → Js.contains (t +:+ u) s.
Proof.
  intros (pre & post & ->). exists (t +:+ pre), post.
  by rewrite !app_assoc_string.
Qed.

End strings.

(** ** The configuration fingerprint *)
Section fingerprint.

Import Client Samples.

(** The two environment suffixes of a fingerprint never coincide, whatever
    precedes them: eleven characters from the end, one has the colon and
    the other a hyphen. *)
Lemma suffix_production_pre_production (a b : string) :
  a +:+ ":production" ≠ b +:+ ":pre-production".
Proof.
  intros Heq.
  change (b +:+ ":pre-production") with (b +:+ ":pre" +:+ "-production") in Heq.
  rewrite <- app_assoc_string in Heq.
  by apply app_inj_suffix in Heq as [_ ?].
Qed.

Lemma getConfigKey_inj (C1 C2 : QuranConfig) :
  getConfigKey C1 = getConfigKey C2 →
  clientId C1 = clientId C2 ∧ environment_or_default C1 = environment_or_default C2.
Proof.
  unfold getConfigKey.
  destruct (environment_or_default C1), (environment_or_default C2); cbn; intros H.
  - by apply app_inj_suffix in H as [? _].
  - by apply suffix_production_pre_production in H.
  - symmetry in H. by apply suffix_production_pre_production in H.
  - by apply app_inj_suffix in H as [? _].
Qed.

Lemma getConfigKey_same (C1 C2 : QuranConfig) :
  clientId C1 = clientId C2 →
  environment_or_default C1 = environment_or_default C2 →
  getConfigKey C1 = getConfigKey C2.
Proof. intros Hid Henv. unfold getConfigKey. by rewrite Hid, Henv. Qed.

(** C4. Two configurations have the same cache fingerprint if and only if
    they have the same [clientId] and the same effective environment (the
    [environment] field, an absent one read as [PRODUCTION]); the fields
    [clientSecret] and [defaultLanguage] have no part in the fingerprint,
    which is the [clientId], a colon and the name of the effective
    environment. *)
Theorem getConfigKey_eq_iff (C1 C2 : QuranConfig) :
  (getConfigKey C1 = getConfigKey C2 ↔
     clientId C1 = clientId C2 ∧
     default PRODUCTION (environment C1) = default PRODUCTION (environment C2)) ∧
  (∀ secret lang,
     getConfigKey {| clientId := clientId C1; clientSecret := secret;
                     defaultLanguage := lang; environment := environment C1 |}
     = getConfigKey C1) ∧
  getConfigKey C1
  = clientId C1 +:+ ":" +:+
    match environment C1 with
    | Some PRE_PRODUCTION => "pre-production"
    | Some PRODUCTION | None => "production"
    end.
Proof.
  assert (∀ C, environment_or_default C = default PRODUCTION (environment C)) as Henv
    by (intros C; unfold environment_or_default; by destruct (environment C)).
  rewrite <- !Henv. split; [split|split; [done|]].
  - apply getConfigKey_inj.
  - intros [Hid Heq]. by apply getConfigKey_same.
  - unfold getConfigKey, environment_or_default.
    by destruct (environment C1) as [[]|].
Qed.

Lemma getConfigKey_eq_iff_witness :
  getConfigKey sample_config = "app-1:production" ∧
  getConfigKey prelive_config = "app-1:pre-production" ∧
  getConfigKey rotated_secret_config = getConfigKey sample_config ∧
  getConfigKey prelive_config ≠ getConfigKey sample_config.
Proof.
  destruct (getConfigKey_eq_iff sample_config prelive_config) as (_ & _ & Hkey1).
  destruct (getConfigKey_eq_iff prelive_config sample_config) as (Hiff2 & _ & Hkey2).
  destruct (getConfigKey_eq_iff rotated_secret_config sample_config) as (Hiff3 & _).
  split; [exact Hkey1|]. split; [exact Hkey2|]. split.
  - apply Hiff3. split; reflexivity.
  - intros Heq. apply Hiff2 in Heq as [_ Henv]. discriminate Henv.
Defined.

End fingerprint.

(** ** Environment resolution *)
Section resolution.

Import Client Samples.

(** C2, as stated, fails on the resolver of [createQuranClient]: a
    non-empty environment value that is no member of the enum is not
    defaulted; the lookup in [ENVIRONMENT_CONFIG] finds nothing and reading
    [contentBaseUrl] of the result throws. *)
Lemma createQuranClient_unrecognized_environment :
  (∀ e, QuranEnvironment_value e ≠ "staging") ∧
  createQuranClient_endpoints (Some "staging") = TypeError ∧
  createQuranClient_endpoints (Some "staging")
    ≠ createQuranClient_endpoints (Some (QuranEnvironment_value PRODUCTION)).
Proof. split; [by intros []|done]. Qed.

(** C2, amended. Resolution is total on the environment type: each of
    [PRODUCTION] and [PRE_PRODUCTION] has a fixed pair of non-empty
    endpoints, the two pairs differ, and an absent environment resolves to
    the pair of [PRODUCTION]. At run time the resolver agrees with this on
    every member of the enum, on [undefined] and on the empty string. A
    selector string that names no environment never reaches the resolver:
    [index.ts] maps every selector other than (a spelling of)
    [pre-production], and an absent one, to [PRODUCTION]. *)
Theorem environment_resolution_total :
  (∀ e, contentBaseUrl (ENVIRONMENT_CONFIG e) ≠ "" ∧
        authBaseUrl (ENVIRONMENT_CONFIG e) ≠ "") ∧
  ENVIRONMENT_CONFIG PRODUCTION ≠ ENVIRONMENT_CONFIG PRE_PRODUCTION ∧
  (∀ id secret lang,
     let options_of env :=
       createQuranClient_options
         {| clientId := id; clientSecret := secret;
            defaultLanguage := lang; environment := env |} in
     options_of None = options_of (Some PRODUCTION) ∧
     ∀ env,
       opt_contentBaseUrl (options_of env)
         = contentBaseUrl (ENVIRONMENT_CONFIG (default PRODUCTION env)) ∧
       opt_authBaseUrl (options_of env)
         = authBaseUrl (ENVIRONMENT_CONFIG (default PRODUCTION env))) ∧
  (∀ env : option QuranEnvironment,
     createQuranClient_endpoints (QuranEnvironment_value <$> env)
     = Normal (Some (contentBaseUrl (ENVIRONMENT_CONFIG (default PRODUCTION env))),
               Some (authBaseUrl (ENVIRONMENT_CONFIG (default PRODUCTION env))))) ∧
  createQuranClient_endpoints (Some "")
    = createQuranClient_endpoints (Some (QuranEnvironment_value PRODUCTION)) ∧
  (∀ selector : option string,
     Index.quranEnv selector
     = if decide (Js.toLowerCase <$> selector = Some "pre-production")
       then PRE_PRODUCTION else PRODUCTION).
Proof.
  split; [by intros []|]. split; [done|].
  split; [intros id secret lang; split; [done|by intros [[]|]]|].
  split; [by intros [[]|]|]. split; [done|].
  intros [s|]; [|done]. unfold Index.quranEnv. cbn.
  destruct (String.eqb_spec (Js.toLowerCase s) "pre-production") as [->|Hne].
  - by rewrite decide_True.
  - rewrite decide_False; [done|]. by intros [= ?].
Qed.

End resolution.

(** ** The client cache *)
Section cache.

Import Client.

Lemma getQuranClient_hit (config : QuranConfig) (st : Store) (h : handle) :
  cachedClient st = Some h →
  cachedConfig st = Some (getConfigKey config) →
  getQuranClient config st = (h, st).
Proof. intros Hc Hk. unfold getQuranClient. rewrite Hc. by rewrite decide_True. Qed.

Lemma getQuranClient_miss (config : QuranConfig) (st : Store) :
  cachedClient st = None ∨ cachedConfig st ≠ Some (getConfigKey config) →
  getQuranClient config st
  = (length (heap st),
     {| heap := heap st ++ [ {| options := createQuranClient_options config;
                                accessToken := None |} ];
        cachedClient := Some (length (heap st));
        cachedConfig := Some (getConfigKey config) |}).
Proof.
  intros H. unfold getQuranClient.
  destruct (cachedClient st) as [h|] eqn:Hc; [|done].
  destruct H as [?|Hk]; [done|]. by rewrite decide_False.
Qed.

(** After a call of [getQuranClient] the cache holds the returned handle
    under the fingerprint of the configuration. *)
Lemma getQuranClient_cached (config : QuranConfig) (st : Store) :
  cachedClient (getQuranClient config st).2 = Some (getQuranClient config st).1 ∧
  cachedConfig (getQuranClient config st).2 = Some (getConfigKey config).
Proof.
  destruct (cachedClient st) as [h|] eqn:Hc.
  - destruct (decide (cachedConfig st = Some (getConfigKey config))) as [Hk|Hk].
    + by rewrite (getQuranClient_hit _ _ h).
    + rewrite getQuranClient_miss; [done|by right].
  - rewrite getQuranClient_miss; [done|by left].
Qed.

Lemma length_heap_getQuranClient (config : QuranConfig) (st : Store) :
  length (heap st) ≤ length (heap (getQuranClient config st).2).
Proof.
  destruct (cachedClient st) as [h|] eqn:Hc.
  - destruct (decide (cachedConfig st = Some (getConfigKey config))) as [Hk|Hk].
    + by rewrite (getQuranClient_hit _ _ h).
    + rewrite getQuranClient_miss; [|by right]. cbn. rewrite length_app. lia.
  - rewrite getQuranClient_miss; [|by left]. cbn. rewrite length_app. lia.
Qed.

Lemma cache_valid_getQuranClient (config : QuranConfig) (st : Store) :
  cache_valid st → cache_valid (getQuranClient config st).2.
Proof.
  intros Hv h'.
  destruct (cachedClient st) as [h|] eqn:Hc.
  - destruct (decide (cachedConfig st = Some (getConfigKey config))) as [Hk|Hk].
    + rewrite (getQuranClient_hit _ _ h) by done. apply Hv.
    + rewrite getQuranClient_miss by (by right). cbn. rewrite length_app. cbn.
      intros [= <-]. lia.
  - rewrite getQuranClient_miss by (by left). cbn. rewrite length_app. cbn.
    intros [= <-]. lia.
Qed.

Lemma cache_valid_step (st : Store) (o : Op) : cache_valid st → cache_valid (step st o).
Proof.
  intros Hv. destruct o as [config| |h token]; cbn.
  - by apply cache_valid_getQuranClient.
  - intros h. unfold clearClientCache.
    destruct (cachedClient st) eqn:Hc; cbn; [done|]. by rewrite Hc.
  - intros h'. cbn. rewrite length_alter. apply Hv.
Qed.

Lemma reachable_cache_valid (st : Store) : reachable st → cache_valid st.
Proof.
  induction 1 as [|st o _ IH]; [by intros h|]. by apply cache_valid_step.
Qed.

Lemma reachable_run (ops : list Op) : reachable (run ops).
Proof.
  unfold run. induction ops as [|o ops IH] using rev_ind; [constructor|].
  rewrite foldl_app. cbn. by constructor.
Qed.

End cache.

Section cache_properties.

Import Client Samples.

(** C1. In any state of the module, two calls of [getQuranClient] in a
    row, with no invalidation in between, behave as follows. If the two
    configurations have the same [clientId] and the same environment (an
    absent one being [PRODUCTION]), the second call returns the handle of
    the first and leaves the whole state as the first call left it: no
    client is constructed, nothing else changes. If they differ in
    [clientId] or in environment, the second call returns a handle other
    than the first, the address of a client object constructed by this
    very call. *)
Theorem getQuranClient_twice (st0 : Store) (C1 C2 : QuranConfig) :
  reachable st0 →
  let r1 := getQuranClient C1 st0 in
  let r2 := getQuranClient C2 r1.2 in
  (clientId C1 = clientId C2 ∧
   environment_or_default C1 = environment_or_default C2 →
     r2.1 = r1.1 ∧ r2.2 = r1.2) ∧
  (clientId C1 ≠ clientId C2 ∨
   environment_or_default C1 ≠ environment_or_default C2 →
     r2.1 ≠ r1.1 ∧
     heap r1.2 !! r2.1 = None ∧
     heap r2.2 = heap r1.2 ++ [ {| options := createQuranClient_options C2;
                                   accessToken := None |} ]).
Proof.
  intros Hreach r1 r2.
  destruct (getQuranClient_cached C1 st0) as [Hc Hk]. fold r1 in Hc, Hk.
  assert (r1.1 < length (heap r1.2)) as Hlt.
  { apply (cache_valid_getQuranClient C1 st0); [|done].
    by apply reachable_cache_valid. }
  split.
  - intros [Hid Henv]. subst r2.
    rewrite (getQuranClient_hit C2 r1.2 r1.1); [done..|].
    by rewrite Hk, (getConfigKey_same C1 C2).
  - intros Hdiff. subst r2. rewrite getQuranClient_miss.
    + cbn. split; [lia|]. split; [|done]. by apply lookup_ge_None_2.
    + right. rewrite Hk. intros [= Heq]. apply getConfigKey_inj in Heq.
      destruct Hdiff, Heq; done.
Qed.

Lemma getQuranClient_twice_witness :
  (getQuranClient rotated_secret_config (getQuranClient sample_config initial).2).1
    = (getQuranClient sample_config initial).1 ∧
  (getQuranClient prelive_config (getQuranClient sample_config initial).2).1
    ≠ (getQuranClient sample_config initial).1.
Proof.
  split.
  - apply (getQuranClient_twice initial sample_config rotated_secret_config
             reachable_initial).
    split; reflexivity.
  - apply (getQuranClient_twice initial sample_config prelive_config
             reachable_initial).
    right. discriminate.
Defined.

(** C3. When the cache holds a handle, [clearClientCache] first has that
    client drop its access token and then empties both cells: afterwards
    the client object holds no token, every other object is as it was, and
    [cachedClient] and [cachedConfig] are both [null]. A call of
    [getQuranClient] that follows, with any configuration (one that was
    cached before included), constructs a client: the handle it returns is
    the address of an object that did not exist before the invalidation,
    hence is not the handle the cache held. *)
Theorem clearClientCache_then_get (st : Store) (h : handle) (C : QuranConfig) :
  reachable st →
  cachedClient st = Some h →
  let st1 := clearClientCache st in
  let r := getQuranClient C st1 in
  st1 = set_cachedConfig None (set_cachedClient None (clearCachedToken h st)) ∧
  accessToken <$> heap st1 !! h = Some None ∧
  (∀ h', h' ≠ h → heap st1 !! h' = heap st !! h') ∧
  cachedClient st1 = None ∧ cachedConfig st1 = None ∧
  r.1 ≠ h ∧
  heap st !! r.1 = None ∧
  heap r.2 = heap st1 ++ [ {| options := createQuranClient_options C;
                              accessToken := None |} ] ∧
  cachedClient r.2 = Some r.1.
Proof.
  intros Hreach Hc st1 r.
  assert (h < length (heap st)) as Hlt by by apply reachable_cache_valid.
  assert (st1 = set_cachedConfig None (set_cachedClient None (clearCachedToken h st)))
    as Hst1 by (subst st1; unfold clearClientCache; by rewrite Hc).
  clearbody st1. split; [done|].
  assert (length (heap st1) = length (heap st)) as Hlen
    by (rewrite Hst1; cbn; by rewrite length_alter).
  split.
  { rewrite Hst1. cbn. rewrite list_lookup_alter_eq.
    destruct (lookup_lt_is_Some_2 (heap st) h Hlt) as [o ->]. done. }
  split.
  { intros h' Hne. rewrite Hst1. cbn. by rewrite list_lookup_alter_ne. }
  split; [by rewrite Hst1|]. split; [by rewrite Hst1|].
  subst r. rewrite getQuranClient_miss by (left; by rewrite Hst1).
  cbn. rewrite Hlen. split; [lia|]. split; [|done].
  by apply lookup_ge_None_2.
Qed.

Lemma clearClientCache_then_get_witness :
  (getQuranClient sample_config
     (clearClientCache
        (run [OpGet sample_config; OpRequest 0 "access-token-1"]))).1 ≠ 0.
Proof.
  apply (clearClientCache_then_get
           (run [OpGet sample_config; OpRequest 0 "access-token-1"])
           0 sample_config).
  - apply reachable_run.
  - reflexivity.
Defined.

(** C10. The two cache cells are set together and empty together:
    [cachedClient] is [null] exactly when [cachedConfig] is [null], in the
    initial state and after any sequence of calls of [getQuranClient] and
    [clearClientCache] (and of requests made through the handles), in
    whatever order. *)
Theorem cells_coupled_reachable (st : Store) :
  reachable st → cachedClient st = None ↔ cachedConfig st = None.
Proof.
  induction 1 as [|st o _ IH]; [done|].
  destruct o as [config| |h token]; cbn.
  - destruct (getQuranClient_cached config st) as [-> ->]. by split.
  - unfold clearClientCache.
    destruct (cachedClient st) eqn:Hc; cbn; [done|]. by rewrite Hc.
  - done.
Qed.

Lemma cells_coupled_reachable_witness :
  cachedClient (run [OpGet sample_config; OpClear; OpGet prelive_config]) = None ↔
  cachedConfig (run [OpGet sample_config; OpClear; OpGet prelive_config]) = None.
Proof.
  apply (cells_coupled_reachable
           (run [OpGet sample_config; OpClear; OpGet prelive_config])).
  apply reachable_run.
Defined.

End cache_properties.

(** ** The verse handler *)
Section verse_handler.

Import Js Tools Samples.

(** C5. Whatever error the verse lookup of the client raises, [getVerse]
    returns an envelope: its [isError] is [true] and its one text block
    contains the verse key that was asked for, the failure category and
    the failure message. The category is the [status] of the error, a
    number printed in decimal or a string, and [error] when the status is
    absent, zero or empty; the message is the [message] of the error, and
    a fixed text when it is absent or empty. *)
Theorem getVerse_error_envelope (client : QuranClient) (params : GetVerseParams)
    (error : JsError) :
  verses_findByKey client (p_verseKey params) (getVerse_options params) = inl error →
  let e := (getVerse client params).2 in
  isError e = Some true ∧
  content e = [ {| type := "text"; text := envelope_text e |} ] ∧
  contains (envelope_text e) ("Error fetching verse " +:+ p_verseKey params) ∧
  contains (envelope_text e) ("Error Type: " +:+ errorType error) ∧
  contains (envelope_text e) ("Message: " +:+ errorMessage error) ∧
  (∀ m, message error = Some m → m ≠ "" → errorMessage error = m) ∧
  (∀ s, status error = Some (StatusString s) → s ≠ "" → errorType error = s) ∧
  (∀ n, status error = Some (StatusNumber n) → n ≠ 0%Z →
        errorType error = string_of_Z n) ∧
  envelope_text e
  = "❌ **Error fetching verse " +:+ p_verseKey params +:+ "**" +:+ nl +:+ nl
      +:+ "Error Type: " +:+ errorType error +:+ nl
      +:+ "Message: " +:+ errorMessage error +:+ nl +:+ nl
      +:+ "Please check the verse key format (should be 'chapter:verse', e.g., '2:255') and try again." ∧
  (∀ n, status error = Some (StatusNumber n) → n ≠ 0%Z →
        Z.of_int <$> NilZero.int_of_string (errorType error) = Some n) ∧
  (status error = None ∨ status error = Some (StatusNumber 0) ∨
   status error = Some (StatusString "") → errorType error = "error") ∧
  (message error = None ∨ message error = Some "" →
   errorMessage error = "Unknown error occurred") ∧
  errorType error ≠ "" ∧ errorMessage error ≠ "".
Proof.
  intros Hcall e. subst e. unfold getVerse. cbn. rewrite Hcall. cbn.
  split; [done|]. split; [done|]. unfold getVerse_error_text.
  split.
  { exists "❌ **", ("**" +:+ nl +:+ nl +:+ "Error Type: " +:+ errorType error +:+ nl
      +:+ "Message: " +:+ errorMessage error +:+ nl +:+ nl
      +:+ "Please check the verse key format (should be 'chapter:verse', e.g., '2:255') and try again.").
    by rewrite !app_assoc_string. }
  split.
  { do 5 apply contains_app_r.
    rewrite <- (app_assoc_string "Error Type: " (errorType error)).
    apply contains_app_l, contains_refl. }
  split.
  { do 8 apply contains_app_r.
    rewrite <- (app_assoc_string "Message: " (errorMessage error)).
    apply contains_app_l, contains_refl. }
  unfold errorMessage, errorType, or_else.
  split; [|split; [|split; [|split; [done|split; [|split; [|split; [|split]]]]]]].
  - intros m -> Hm. cbn. by destruct (String.eqb_spec m "").
  - intros s -> Hs. by destruct (String.eqb_spec s "").
  - intros n -> Hn. by destruct (Z.eqb_spec n 0).
  - intros n -> Hn. destruct (Z.eqb_spec n 0); [done|]. apply string_of_Z_parses.
  - by intros [-> | [-> | ->]].
  - by intros [-> | ->].
  - destruct (status error) as [[n|s]|]; [| |done].
    + destruct (Z.eqb_spec n 0); [done|]. intros Hempty.
      pose proof (string_of_Z_parses n) as Hparse. by rewrite Hempty in Hparse.
    + by destruct (String.eqb_spec s "").
  - destruct (message error) as [m|]; [|done]. by destruct (String.eqb_spec m "").
Qed.

Lemma getVerse_error_envelope_witness :
  isError (getVerse sample_client sample_params).2 = Some true ∧
  contains (envelope_text (getVerse sample_client sample_params).2)
           ("Error fetching verse " +:+ "2:999") ∧
  envelope_text (getVerse sample_client sample_params).2
  = "❌ **Error fetching verse 2:999**" +:+ nl +:+ nl
      +:+ "Error Type: 404" +:+ nl
      +:+ "Message: Verse not found" +:+ nl +:+ nl
      +:+ "Please check the verse key format (should be 'chapter:verse', e.g., '2:255') and try again." ∧
  envelope_text (getVerse bare_failure_client sample_params).2
  = "❌ **Error fetching verse 2:999**" +:+ nl +:+ nl
      +:+ "Error Type: error" +:+ nl
      +:+ "Message: Unknown error occurred" +:+ nl +:+ nl
      +:+ "Please check the verse key format (should be 'chapter:verse', e.g., '2:255') and try again.".
Proof.
  destruct (getVerse_error_envelope sample_client sample_params not_found eq_refl)
    as (H1 & _ & H2 & _ & _ & _ & _ & _ & H3 & _).
  destruct (getVerse_error_envelope bare_failure_client sample_params
              {| message := None; status := None |} eq_refl)
    as (_ & _ & _ & _ & _ & _ & _ & _ & H4 & _).
  split; [exact H1|]. split; [exact H2|]. split; [exact H3|exact H4].
Defined.

(** C9. When [includeTafsir] is false, the one call [getVerse] makes on
    the client is a verse lookup carrying no commentary identifiers,
    whatever [tafsirIds] holds; the call and the result are those of the
    same request without [tafsirIds]. *)
Theorem getVerse_ignores_tafsirIds (client : QuranClient) (params : GetVerseParams) :
  p_includeTafsir params = false →
  (∃ opts,
     (getVerse client params).1 = [Call_verses_findByKey (p_verseKey params) opts] ∧
     opt_tafsirs opts = None ∧
     opt_translations opts = p_translations params ∧
     opt_words opts = p_includeWords params) ∧
  getVerse client params
  = getVerse client {| p_verseKey := p_verseKey params;
                       p_translations := p_translations params;
                       p_includeWords := p_includeWords params;
                       p_includeTafsir := false;
                       p_tafsirIds := None |}.
Proof.
  intros Hflag. split.
  - exists (getVerse_options params). unfold getVerse, getVerse_options. cbn.
    by rewrite Hflag.
  - unfold getVerse, getVerse_options. cbn. by rewrite Hflag.
Qed.

Lemma getVerse_ignores_tafsirIds_witness :
  ∃ opts,
    (getVerse sample_client sample_params).1 = [Call_verses_findByKey "2:999" opts] ∧
    opt_tafsirs opts = None.
Proof.
  destruct (getVerse_ignores_tafsirIds sample_client sample_params eq_refl)
    as [(opts & H1 & H2 & _) _].
  exact (ex_intro _ opts (conj H1 H2)).
Defined.

End verse_handler.

(** ** The translation catalogue handler *)
Section catalogue.

Import Js Tools Samples.

Lemma truthy_Some (s : string) : s ≠ "" → truthy (Some s) = true.
Proof. intros Hs. cbn. by destruct (String.eqb_spec s ""). Qed.

Lemma or_else_Some (s d : string) : s ≠ "" → or_else (Some s) d = s.
Proof. intros Hs. cbn. by destruct (String.eqb_spec s ""). Qed.

(** A loop body that only appends to [response] produces the
    concatenation of what it appends at each element. *)
Lemma foldl_appends {A : Type} (f : string → A → string) :
  (∀ r x, f r x = r +:+ f "" x) →
  ∀ l r, foldl f r l = r +:+ join (f "" <$> l).
Proof.
  intros Hf l. induction l as [|x l IH]; intros r; cbn.
  - by rewrite app_nil_r_string.
  - rewrite IH, Hf. by rewrite app_assoc_string.
Qed.

Lemma render_flat_item_appends (r : string) (t : TranslationResource) :
  render_flat_item r t = r +:+ render_flat_item "" t.
Proof.
  unfold render_flat_item. destruct (truthy (authorName t));
    by rewrite !app_assoc_string.
Qed.

Lemma render_group_item_appends (r : string) (i : GroupItem) :
  render_group_item r i = r +:+ render_group_item "" i.
Proof.
  unfold render_group_item. destruct (truthy (g_author i));
    by rewrite !app_assoc_string.
Qed.

Lemma render_group_appends (b : Groups) (r : string) (k : string) :
  render_group b r k = r +:+ render_group b "" k.
Proof.
  unfold render_group. cbn zeta.
  rewrite (foldl_appends _ render_group_item_appends _ (r +:+ _)).
  rewrite (foldl_appends _ render_group_item_appends _ ("" +:+ _)).
  by rewrite !app_assoc_string.
Qed.

Lemma filterTranslations_Some (language : string) (all : list TranslationResource) :
  language ≠ "" →
  filterTranslations (Some language) all = List.filter (matches_language language) all.
Proof. intros Hl. unfold filterTranslations. by rewrite truthy_Some. Qed.

Lemma getAvailableTranslations_response_filtered (language : string)
    (all : list TranslationResource) :
  language ≠ "" →
  getAvailableTranslations_response (Some language) all
  = let matching := List.filter (matches_language language) all in
    inr (header (Some language) (length matching) +:+
         match matching with
         | [] => no_translations (Some language)
         | first :: _ =>
             join (render_flat_item "" <$> matching) +:+ nl +:+ usage_example (id first)
         end).
Proof.
  intros Hl. unfold getAvailableTranslations_response.
  rewrite filterTranslations_Some by done. cbn zeta.
  destruct (List.filter (matches_language language) all) as [|first rest] eqn:Hm;
    [done|].
  rewrite truthy_Some by done. cbn [negb].
  rewrite (foldl_appends _ render_flat_item_appends).
  by rewrite !app_assoc_string.
Qed.

(** C6. A handler whose [try] block runs to its [return] answers with an
    envelope that is not an error: the handlers leave [isError] out of it,
    which reads as false. This is so for [getVerse] whenever the verse
    lookup succeeds, and for [getAvailableTranslations] whenever the
    catalogue call succeeds and a filter is given. In particular, with a
    filter that matches no entry, the envelope is not an error and its text
    reports zero matches, says that no translations were found for that
    language and suggests language names to try. *)
Theorem success_envelope_not_error (client : QuranClient) :
  (∀ params verse,
     verses_findByKey client (p_verseKey params) (getVerse_options params) = inr verse →
     let e := (getVerse client params).2 in
     isError e = None ∧ isErrorFlag e = false ∧
     envelope_text e = getVerse_response (p_includeWords params) verse) ∧
  (∀ params response,
     getAvailableTranslations_try client params = inr response →
     let e := (getAvailableTranslations client params).2 in
     isError e = None ∧ isErrorFlag e = false ∧ envelope_text e = response) ∧
  (∀ language all,
     language ≠ "" →
     resources_findAllTranslations client () = inr all →
     let e := (getAvailableTranslations client {| language := Some language |}).2 in
     isError e = None ∧ isErrorFlag e = false ∧
     (List.filter (matches_language language) all = [] →
      envelope_text e = header (Some language) 0 +:+ no_translations (Some language) ∧
      contains (envelope_text e) "(0 found)" ∧
      contains (envelope_text e) ("No translations found for language: " +:+ language) ∧
      contains (envelope_text e)
        "Try using common languages like: english, urdu, arabic, spanish, french, turkish, bengali, indonesian, russian, persian")).
Proof.
  split; [|split].
  - intros params verse Hcall e. subst e. unfold getVerse. cbn. by rewrite Hcall.
  - intros params response Htry e. subst e. unfold getAvailableTranslations. cbn.
    by rewrite Htry.
  - intros language all Hl Hcall e. subst e. unfold getAvailableTranslations. cbn.
    unfold getAvailableTranslations_try. rewrite Hcall. cbn.
    rewrite getAvailableTranslations_response_filtered by done. cbn zeta.
    split; [done|]. split; [done|]. intros ->. cbn.
    split; [done|]. unfold header, no_translations.
    rewrite truthy_Some, or_else_Some by done.
    split; [|split].
    + apply contains_app_l. do 2 apply contains_app_r.
      exists " Translations** ", (nl +:+ nl). reflexivity.
    + apply contains_app_r.
      change "No translations found for language: "
        with ("No translations found" +:+ " for language: ").
      exists "", ("." +:+ nl +:+ nl +:+
        "Try using common languages like: english, urdu, arabic, spanish, french, turkish, bengali, indonesian, russian, persian").
      by rewrite !app_assoc_string.
    + do 6 apply contains_app_r. apply contains_refl.
Qed.

Lemma success_envelope_not_error_witness :
  isErrorFlag (getVerse serving_client sample_params).2 = false ∧
  isErrorFlag (getAvailableTranslations sample_client {| language := Some "klingon" |}).2
    = false ∧
  contains
    (envelope_text
       (getAvailableTranslations sample_client {| language := Some "klingon" |}).2)
    ("No translations found for language: " +:+ "klingon").
Proof.
  destruct (success_envelope_not_error serving_client) as (Hverse & _ & _).
  destruct (success_envelope_not_error sample_client) as (_ & _ & Hfilter).
  destruct (Hverse sample_params ayat_al_kursi eq_refl) as (_ & H1 & _).
  assert ("klingon" ≠ "") as Hne by discriminate.
  destruct (Hfilter "klingon" sample_catalogue Hne eq_refl) as (_ & H2 & H3).
  destruct (H3 eq_refl) as (_ & _ & H4 & _).
  exact (conj H1 (conj H2 H4)).
Defined.

(** C8. With a filter, [getAvailableTranslations] makes one call on the
    client, the listing of all translations, which carries no filter; it
    keeps the entries whose language name equals the filter up to the case
    of letters (entries with no language name are dropped), in the order
    the client listed them; when there is a match, the text is a heading
    with the number of matches, one line per match with its id, in
    decimal, and its name, followed by its author when it has one, and
    then one usage example built on the id of the first match. Up to the
    case of letters means: after the capital letters A to Z are replaced
    by the small ones, nothing else being changed. *)
Theorem getAvailableTranslations_filtered (client : QuranClient) (language : string)
    (all : list TranslationResource) :
  language ≠ "" →
  resources_findAllTranslations client () = inr all →
  let r := getAvailableTranslations client {| language := Some language |} in
  let matching := List.filter (matches_language language) all in
  r.1 = [Call_resources_findAllTranslations] ∧
  (∀ t, t ∈ matching ↔
        t ∈ all ∧ ∃ l, languageName t = Some l ∧ toLowerCase l = toLowerCase language) ∧
  matching `sublist_of` all ∧
  (∀ first rest, matching = first :: rest →
     isError r.2 = None ∧
     envelope_text r.2
     = header (Some language) (length matching)
         +:+ join (render_flat_item "" <$> matching) +:+ nl
         +:+ usage_example (id first)) ∧
  (∀ t, render_flat_item "" t
        = "• **ID: " +:+ string_of_Z (id t) +:+ "** - " +:+ name t
            +:+ match authorName t with
                | Some author => if String.eqb author "" then "" else " by " +:+ author
                | None => ""
                end
            +:+ nl) ∧
  (∀ exampleId, contains (usage_example exampleId)
                  ("translations: [" +:+ string_of_Z exampleId +:+ "]")) ∧
  (∀ s, N_of_ascii <$> list_ascii_of_string (toLowerCase s)
        = (λ n, if ((65 <=? n) && (n <=? 90))%N then (n + 32)%N else n)
            <$> (N_of_ascii <$> list_ascii_of_string s)) ∧
  (∀ t, ∃ digits,
     Z.of_int <$> NilZero.int_of_string digits = Some (id t) ∧
     render_flat_item "" t
     = "• **ID: " +:+ digits +:+ "** - " +:+ name t
         +:+ match authorName t with
             | Some author => if String.eqb author "" then "" else " by " +:+ author
             | None => ""
             end
         +:+ nl) ∧
  (∀ exampleId, ∃ digits,
     Z.of_int <$> NilZero.int_of_string digits = Some exampleId ∧
     contains (usage_example exampleId) ("translation ID " +:+ digits +:+ ", use:") ∧
     contains (usage_example exampleId) ("translations: [" +:+ digits +:+ "]")) ∧
  (∀ count, ∃ digits,
     Nat.of_uint <$> NilZero.uint_of_string digits = Some count ∧
     header (Some language) count
     = "📚 **Available " +:+ capitalize language +:+ " Translations** ("
         +:+ digits +:+ " found)" +:+ nl +:+ nl).
Proof.
  intros Hl Hcall r matching.
  assert (∀ t, render_flat_item "" t
               = "• **ID: " +:+ string_of_Z (id t) +:+ "** - " +:+ name t
                   +:+ match authorName t with
                       | Some author =>
                           if String.eqb author "" then "" else " by " +:+ author
                       | None => ""
                       end
                   +:+ nl) as Hline.
  { intros t. unfold render_flat_item, truthy, or_else.
    destruct (authorName t) as [author|]; [destruct (String.eqb author "")|];
      cbn [negb]; by rewrite ?app_assoc_string, ?app_nil_r_string. }
  assert (∀ exampleId, contains (usage_example exampleId)
                         ("translations: [" +:+ string_of_Z exampleId +:+ "]")) as Huse.
  { intros exampleId. unfold usage_example. do 13 apply contains_app_r.
    exists ", ", (" })" +:+ nl +:+ "```" +:+ nl).
    change ", translations: [" with (", " +:+ "translations: [").
    change "] })" with ("]" +:+ " })").
    by rewrite !app_assoc_string. }
  split; [done|].
  split; [|split; [|split; [|split; [done|split; [done|split; [|split; [|split]]]]]]].
  - intros t. subst matching. rewrite list_elem_of_In, filter_In, <- list_elem_of_In.
    unfold matches_language. split.
    + intros [Hin Hm]. split; [done|]. destruct (languageName t) as [l|]; [|done].
      exists l. split; [done|]. by apply String.eqb_eq.
    + intros [Hin (l & -> & Heq)]. split; [done|]. by apply String.eqb_eq.
  - subst matching. clear. induction all as [|t all IH]; cbn; [done|].
    destruct (matches_language language t); by constructor.
  - intros first rest Hm. subst r. unfold getAvailableTranslations. cbn.
    unfold getAvailableTranslations_try. rewrite Hcall. cbn.
    rewrite getAvailableTranslations_response_filtered by done. cbn zeta.
    fold matching. rewrite Hm. done.
  - apply toLowerCase_codes.
  - intros t. exists (string_of_Z (id t)). split; [apply string_of_Z_parses|done].
  - intros exampleId. exists (string_of_Z exampleId).
    split; [apply string_of_Z_parses|]. split; [|done].
    unfold usage_example. do 3 apply contains_app_r.
    exists "To fetch a verse with ",
      (nl +:+ "```" +:+ nl +:+ "getVerse({ verseKey: " +:+ dquote +:+ "2:255" +:+ dquote
         +:+ ", translations: [" +:+ string_of_Z exampleId +:+ "] })" +:+ nl
         +:+ "```" +:+ nl).
    change "To fetch a verse with translation ID "
      with ("To fetch a verse with " +:+ "translation ID ").
    by rewrite !app_assoc_string.
  - intros count. exists (string_of_nat count).
    split; [apply string_of_nat_parses|].
    unfold header. by rewrite truthy_Some, or_else_Some.
Qed.

Lemma getAvailableTranslations_filtered_witness :
  (getAvailableTranslations sample_client {| language := Some "eNGLISH" |}).1
    = [Call_resources_findAllTranslations] ∧
  List.filter (matches_language "eNGLISH") sample_catalogue `sublist_of` sample_catalogue ∧
  envelope_text (getAvailableTranslations sample_client {| language := Some "eNGLISH" |}).2
  = "📚 **Available ENGLISH Translations** (2 found)" +:+ nl +:+ nl
      +:+ "• **ID: 20** - Saheeh International" +:+ nl
      +:+ "• **ID: 85** - M.A.S. Abdel Haleem by Abdel Haleem" +:+ nl
      +:+ nl
      +:+ nl +:+ "**Usage Example:**" +:+ nl
      +:+ "To fetch a verse with translation ID 20, use:" +:+ nl
      +:+ "```" +:+ nl
      +:+ "getVerse({ verseKey: " +:+ dquote +:+ "2:255" +:+ dquote
      +:+ ", translations: [20] })" +:+ nl
      +:+ "```" +:+ nl.
Proof.
  assert ("eNGLISH" ≠ "") as Hne by discriminate.
  destruct (getAvailableTranslations_filtered sample_client "eNGLISH" sample_catalogue
              Hne eq_refl) as (H1 & _ & H2 & H3 & _).
  destruct (H3 _ _ eq_refl) as [_ H4].
  split; [exact H1|]. split; [exact H2|]. exact (eq_trans H4 eq_refl).
Defined.

End catalogue.

(** ** Grouping by language *)
Section grouping.

Import Js Tools Samples.

Lemma own_property_push_item (k : string) (i : GroupItem) (b : Groups) :
  own_property (push_item k i b) k = Some (default [] (own_property b k) ++ [i]).
Proof.
  induction b as [|[k' items] b IH]; cbn.
  - by rewrite String.eqb_refl.
  - destruct (String.eqb_spec k' k) as [->|Hne]; cbn.
    + by rewrite String.eqb_refl.
    + by destruct (String.eqb_spec k' k).
Qed.

Lemma own_property_push_item_ne (k k' : string) (i : GroupItem) (b : Groups) :
  k' ≠ k → own_property (push_item k i b) k' = own_property b k'.
Proof.
  intros Hne. induction b as [|[k0 items] b IH]; cbn.
  - by destruct (String.eqb_spec k k').
  - destruct (String.eqb_spec k0 k) as [->|Hne0]; cbn.
    + by destruct (String.eqb_spec k k').
    + by rewrite IH.
Qed.

Lemma own_property_keys (b : Groups) (k : string) :
  is_Some (own_property b k) ↔ k ∈ b.*1.
Proof.
  induction b as [|[k' items] b IH]; cbn.
  - split; [by intros [? ?]|by intros ?%elem_of_nil].
  - rewrite elem_of_cons, <- IH.
    destruct (String.eqb_spec k' k) as [->|Hne]; [by split; eauto|].
    split; [by right|]. by intros [->|?].
Qed.

Lemma keys_push_item (k : string) (i : GroupItem) (b : Groups) :
  (push_item k i b).*1
  = match own_property b k with
    | Some _ => b.*1
    | None => b.*1 ++ [k]
    end.
Proof.
  induction b as [|[k' items] b IH]; cbn; [done|].
  destruct (String.eqb_spec k' k) as [->|Hne]; cbn; [done|].
  rewrite IH. by destruct (own_property b k).
Qed.

Lemma NoDup_keys_push_item (k : string) (i : GroupItem) (b : Groups) :
  NoDup b.*1 → NoDup (push_item k i b).*1.
Proof.
  intros Hnd. rewrite keys_push_item.
  destruct (own_property b k) eqn:Hk; [done|].
  apply NoDup_app. split; [done|]. split; [|apply NoDup_singleton].
  intros k' Hin ->%list_elem_of_singleton.
  apply own_property_keys in Hin as [? ?]. congruence.
Qed.

Lemma groupByLanguage_snoc (ts : list TranslationResource) (t : TranslationResource) :
  groupByLanguage (ts ++ [t]) = group_step (groupByLanguage ts) t.
Proof. unfold groupByLanguage. by rewrite foldl_app. Qed.

Lemma entries_of_snoc (k : string) (ts : list TranslationResource)
    (t : TranslationResource) :
  entries_of k (ts ++ [t])
  = entries_of k ts ++ (if String.eqb (group_key t) k then [t] else []).
Proof. unfold entries_of. by rewrite List.filter_app. Qed.

Lemma groupByLanguage_inr (ts : list TranslationResource) (b : Groups) :
  groupByLanguage ts = inr b →
  Forall (λ t, inherited (group_key t) = false) ts ∧ groups_of ts b.
Proof.
  revert b. induction ts as [|t ts IH] using rev_ind; intros b.
  - intros [= <-]. split; [done|]. split; [constructor|]. intros k. reflexivity.
  - rewrite groupByLanguage_snoc.
    destruct (groupByLanguage ts) as [error|b0]; unfold group_step; cbv zeta;
      [done|].
    destruct (inherited (group_key t)) eqn:Hinh; [done|]. intros [= <-].
    destruct (IH b0 eq_refl) as (Hall & Hnd & Hown).
    split; [apply Forall_app; by split; [|constructor]|].
    split; [by apply NoDup_keys_push_item|].
    intros k. rewrite entries_of_snoc.
    destruct (String.eqb_spec (group_key t) k) as [<-|Hne].
    + rewrite own_property_push_item, Hown.
      destruct (entries_of (group_key t) ts) as [|t0 m]; [done|].
      cbn. by rewrite fmap_app.
    + rewrite own_property_push_item_ne by done. rewrite Hown.
      by rewrite app_nil_r.
Qed.

Lemma groupByLanguage_total (ts : list TranslationResource) :
  Forall (λ t, inherited (group_key t) = false) ts →
  ∃ b, groupByLanguage ts = inr b.
Proof.
  induction ts as [|t ts IH] using rev_ind; [by exists []|].
  intros [Hts Ht%Forall_inv]%Forall_app.
  destruct (IH Hts) as [b Hb]. rewrite groupByLanguage_snoc, Hb.
  unfold group_step. cbv zeta. rewrite Ht. eauto.
Qed.

(** A list without duplicates that is sorted for the lexicographic order
    is strictly increasing. *)
Lemma StronglySorted_strict (l : list string) :
  NoDup l → StronglySorted String.le l →
  StronglySorted (λ k1 k2, String.ltb k1 k2 = true) l.
Proof.
  induction l as [|k l IH]; [constructor|].
  intros [Hk Hnd]%NoDup_cons [Hle Hs]%StronglySorted_cons.
  constructor; [by apply IH|].
  rewrite Forall_forall in Hle. apply Forall_forall. intros k' Hin.
  specialize (Hle k' Hin). unfold String.le, String.leb in Hle. unfold String.ltb.
  destruct (String.compare k k') eqn:Hcmp; [|done..].
  apply String.compare_eq_iff in Hcmp as ->. by destruct Hk.
Qed.

(** C7, as stated, fails: an entry that has no language name is put under
    the key [unknown], which is not its language name. *)
Lemma grouped_under_unknown :
  ∃ byLanguage t,
    groupByLanguage sample_catalogue = inr byLanguage ∧
    t ∈ sample_catalogue ∧
    languageName t = None ∧
    own_property byLanguage "unknown" = Some [group_item t] ∧
    ¬ ∃ k items, own_property byLanguage k = Some items ∧
                 group_item t ∈ items ∧ languageName t = Some k.
Proof.
  eexists _, {| id := 7; name := "Untitled"; authorName := None; languageName := None |}.
  split; [reflexivity|]. split; [do 3 right; left|]. split; [done|]. split; [done|].
  by intros (k & items & _ & _ & ?).
Qed.

(** C7, amended. Without a filter, and when no language name is the name
    of a property that every object inherits, [getAvailableTranslations]
    groups all entries by group key: the key of an entry is its language
    name, or [unknown] when it has none or an empty one. Every entry
    appears in the group of its key, a group holds exactly the entries of
    its key in the order of the catalogue, and no group is empty. The
    groups are rendered one after the other with their keys in strictly
    increasing lexicographic order, each with a heading and one line per
    member. *)
Theorem getAvailableTranslations_grouped (client : QuranClient)
    (language : option string) (all : list TranslationResource) :
  truthy language = false →
  resources_findAllTranslations client () = inr all →
  Forall (λ t, inherited (group_key t) = false) all →
  ∃ byLanguage,
    groupByLanguage all = inr byLanguage ∧
    (∀ t, t ∈ all →
       ∃ items, own_property byLanguage (group_key t) = Some items ∧
                group_item t ∈ items) ∧
    (∀ t, group_key t = match languageName t with
                        | Some l => if String.eqb l "" then "unknown" else l
                        | None => "unknown"
                        end) ∧
    (∀ k items, own_property byLanguage k = Some items →
       items ≠ [] ∧ items = group_item <$> entries_of k all) ∧
    (∀ k, k ∈ sorted_keys byLanguage ↔ is_Some (own_property byLanguage k)) ∧
    NoDup (sorted_keys byLanguage) ∧
    StronglySorted (λ k1 k2, String.ltb k1 k2 = true) (sorted_keys byLanguage) ∧
    (∀ first rest, all = first :: rest →
       let e := (getAvailableTranslations client {| language := language |}).2 in
       isError e = None ∧
       envelope_text e
       = header language (length all)
           +:+ join (render_group byLanguage "" <$> sorted_keys byLanguage)
           +:+ usage_example (id first)) ∧
    (∀ k, render_group byLanguage "" k
          = "**" +:+ capitalize k +:+ "** ("
              +:+ string_of_nat (length (default [] (own_property byLanguage k)))
              +:+ " translations):" +:+ nl
              +:+ join (render_group_item "" <$> default [] (own_property byLanguage k))
              +:+ nl).
Proof.
  intros Hfilter Hcall Hkeys.
  destruct (groupByLanguage_total all Hkeys) as [b Hb]. exists b.
  destruct (groupByLanguage_inr all b Hb) as (_ & Hnd & Hown).
  assert (sorted_keys b ≡ₚ b.*1) as Hperm by apply merge_sort_Permutation.
  split; [done|]. split; [|split; [|split; [|split; [|split; [|split; [|split]]]]]].
  - intros t Hin. rewrite Hown.
    assert (t ∈ entries_of (group_key t) all) as Hent.
    { unfold entries_of. rewrite list_elem_of_In, filter_In, <- list_elem_of_In.
      split; [done|]. apply String.eqb_refl. }
    destruct (entries_of (group_key t) all) as [|t0 m]; [by apply elem_of_nil in Hent|].
    eexists. split; [done|]. by apply list_elem_of_fmap_2.
  - intros t. unfold group_key, or_else. by destruct (languageName t).
  - intros k items. rewrite Hown.
    destruct (entries_of k all) as [|t0 m]; [done|]. by intros [= <-].
  - intros k. by rewrite Hperm, own_property_keys.
  - by rewrite Hperm.
  - apply StronglySorted_strict; [by rewrite Hperm|].
    apply (StronglySorted_merge_sort _).
  - intros first rest -> e. subst e. unfold getAvailableTranslations. cbn.
    unfold getAvailableTranslations_try. rewrite Hcall. cbn.
    unfold getAvailableTranslations_response.
    assert (filterTranslations language (first :: rest) = first :: rest) as ->.
    { unfold filterTranslations. destruct language; by rewrite ?Hfilter. }
    cbn zeta. rewrite Hfilter. cbn [negb]. rewrite Hb. cbn.
    split; [done|].
    rewrite (foldl_appends _ (render_group_appends b)).
    by rewrite app_assoc_string.
  - intros k. unfold render_group. cbn zeta.
    rewrite (foldl_appends _ render_group_item_appends).
    by rewrite !app_assoc_string.
Qed.

(** The condition on the language names is needed: a language name that
    is an inherited property name makes the grouping loop throw, and the
    handler answers with its error envelope although the catalogue call
    succeeded. *)
Example grouping_inherited_language_name :
  let entry := {| id := 1; name := "Sample"; authorName := None;
                  languageName := Some "constructor" |} in
  let client := {| verses_findByKey := λ _ _, inl not_found;
                   resources_findAllTranslations := λ _, inr [entry] |} in
  groupByLanguage [entry] = inl push_TypeError ∧
  isError (getAvailableTranslations client {| language := None |}).2 = Some true.
Proof. done. Qed.

Lemma getAvailableTranslations_grouped_witness :
  ∃ byLanguage,
    groupByLanguage sample_catalogue = inr byLanguage ∧
    StronglySorted (λ k1 k2, String.ltb k1 k2 = true) (sorted_keys byLanguage).
Proof.
  assert (Forall (λ t, inherited (group_key t) = false) sample_catalogue) as Hkeys
    by (repeat constructor).
  destruct (getAvailableTranslations_grouped sample_client None sample_catalogue
              eq_refl eq_refl Hkeys) as (b & H1 & _ & _ & _ & _ & _ & H2 & _).
  exact (ex_intro _ b (conj H1 H2)).
Defined.

End grouping.

(* ===================================================================== *)
(** * Part III: further properties of the sources                          *)
(* ===================================================================== *)

(** ** More on the client factory and the cache *)
Section cache_lifecycle.

Import Client Samples.

(** X1. [createQuranClient] bypasses the cache: it leaves both cache cells
    alone, returns an address that was free, puts there a client holding
    the resolved options and no token, leaves every other object as it
    was, and a second call with the same configuration returns another
    handle. *)
Theorem createQuranClient_fresh (config : QuranConfig) (st : Store) :
  let r := createQuranClient config st in
  heap st !! r.1 = None ∧
  heap r.2 !! r.1 = Some {| options := createQuranClient_options config;
                            accessToken := None |} ∧
  (∀ h, h ≠ r.1 → heap r.2 !! h = heap st !! h) ∧
  cachedClient r.2 = cachedClient st ∧
  cachedConfig r.2 = cachedConfig st ∧
  (createQuranClient config r.2).1 ≠ r.1.
Proof.
  cbn. split; [by apply lookup_ge_None_2|].
  split; [by rewrite lookup_app_r, Nat.sub_diag|].
  split; [|split; [done|split; [done|]]].
  - intros h Hne. destruct (decide (h < length (heap st))) as [Hlt|Hge].
    + by rewrite lookup_app_l.
    + rewrite !lookup_ge_None_2; [done|lia|].
      rewrite length_app. cbn. lia.
  - rewrite length_app. cbn. lia.
Qed.

(** [getQuranClient] only ever appends to the heap. *)
Lemma getQuranClient_heap (config : QuranConfig) (st : Store) :
  heap (getQuranClient config st).2 = heap st ∨
  heap (getQuranClient config st).2
  = heap st ++ [ {| options := createQuranClient_options config; accessToken := None |} ].
Proof.
  destruct (cachedClient st) as [h|] eqn:Hc.
  - destruct (decide (cachedConfig st = Some (getConfigKey config))) as [Hk|Hk].
    + left. by rewrite (getQuranClient_hit _ _ h).
    + right. rewrite getQuranClient_miss; [done|by right].
  - right. rewrite getQuranClient_miss; [done|by left].
Qed.

Lemma getQuranClient_lookup (config : QuranConfig) (st : Store)
    (h : nat) (o : QuranClientObject) :
  heap st !! h = Some o →
  heap (getQuranClient config st).2 !! h = Some o.
Proof.
  intros Hh. destruct (getQuranClient_heap config st) as [-> | ->]; [done|].
  by apply lookup_app_l_Some.
Qed.

(** X2. [getQuranClient] never changes a client object that exists: on a
    hit and on a miss alike, every allocated handle keeps its options and
    its access token. In particular the client a miss replaces is not told
    to drop its token. *)
Theorem getQuranClient_preserves_objects (config : QuranConfig) (st : Store)
    (h : handle) (o : QuranClientObject) :
  heap st !! h = Some o →
  heap (getQuranClient config st).2 !! h = Some o.
Proof. apply getQuranClient_lookup. Qed.

Lemma getQuranClient_preserves_objects_witness :
  heap (getQuranClient prelive_config
          (run [OpGet sample_config; OpRequest 0 "access-token-1"])).2 !! 0
  = Some {| options := createQuranClient_options sample_config;
            accessToken := Some "access-token-1" |}.
Proof.
  apply (getQuranClient_preserves_objects prelive_config
           (run [OpGet sample_config; OpRequest 0 "access-token-1"]) 0).
  reflexivity.
Defined.

Lemma alter_keeps_options (f : QuranClientObject → QuranClientObject)
    (l : list QuranClientObject) (h' h : nat) (o : QuranClientObject) :
  (∀ o, options (f o) = options o) →
  l !! h = Some o →
  ∃ o', alter f h' l !! h = Some o' ∧ options o' = options o.
Proof.
  intros Hf Hh. destruct (decide (h' = h)) as [->|Hne].
  - exists (f o). split; [|done]. by rewrite list_lookup_alter_eq, Hh.
  - exists o. split; [|done]. by rewrite list_lookup_alter_ne.
Qed.

Lemma step_keeps_options (st : Store) (op : Op) (h : handle) (o : QuranClientObject) :
  heap st !! h = Some o →
  ∃ o', heap (step st op) !! h = Some o' ∧ options o' = options o.
Proof.
  intros Hh. destruct op as [config| |h' token]; cbn.
  - exists o. split; [by apply getQuranClient_lookup|done].
  - unfold clearClientCache. destruct (cachedClient st) as [hc|]; cbn; [|by eauto].
    by apply alter_keeps_options.
  - by apply alter_keeps_options.
Qed.

(** X3. A handle, once allocated, stays allocated, and the options its
    client was constructed with never change, whatever calls of
    [getQuranClient] and [clearClientCache] and whatever requests follow:
    the tools registered by [init] keep using the client they closed over,
    even after the cache was invalidated or moved to another
    configuration. *)
Theorem handle_stays_valid (ops : list Op) (st : Store) (h : handle)
    (o : QuranClientObject) :
  heap st !! h = Some o →
  ∃ o', heap (foldl step st ops) !! h = Some o' ∧ options o' = options o.
Proof.
  revert st o. induction ops as [|op ops IH]; intros st o Hh; cbn; [by eauto|].
  destruct (step_keeps_options st op h o Hh) as (o1 & H1 & Hopt).
  destruct (IH _ _ H1) as (o' & H' & Hopt'). exists o'. split; [done|congruence].
Qed.

Lemma handle_stays_valid_witness :
  ∃ o', heap (foldl step (getQuranClient sample_config initial).2
                [OpRequest 0 "access-token-1"; OpClear; OpGet prelive_config]) !! 0
        = Some o' ∧
        options o' = createQuranClient_options sample_config.
Proof.
  apply (handle_stays_valid
           [OpRequest 0 "access-token-1"; OpClear; OpGet prelive_config]
           (getQuranClient sample_config initial).2 0
           {| options := createQuranClient_options sample_config;
              accessToken := None |}).
  reflexivity.
Defined.

(** X4. In every reachable state the cache is consistent: the cached
    handle is the address of a client whose [clientId], and whose two
    endpoints, are those the cached fingerprint names. *)
Theorem cached_client_matches_fingerprint (st : Store) (h : handle) :
  reachable st →
  cachedClient st = Some h →
  ∃ o env,
    heap st !! h = Some o ∧
    cachedConfig st
      = Some (opt_clientId (options o) +:+ ":" +:+ QuranEnvironment_value env) ∧
    opt_contentBaseUrl (options o) = contentBaseUrl (ENVIRONMENT_CONFIG env) ∧
    opt_authBaseUrl (options o) = authBaseUrl (ENVIRONMENT_CONFIG env).
Proof.
  intros Hreach. revert h. induction Hreach as [|st op Hreach IH]; intros h; [done|].
  destruct op as [config| |h' token]; cbn.
  - destruct (cachedClient st) as [hc|] eqn:Hc.
    + destruct (decide (cachedConfig st = Some (getConfigKey config))) as [Hk|Hk].
      * rewrite (getQuranClient_hit _ _ hc) by done. cbn. rewrite Hc. apply IH.
      * rewrite getQuranClient_miss by (by right). cbn. intros [= <-].
        eexists _, (environment_or_default config).
        by rewrite lookup_app_r, Nat.sub_diag.
    + rewrite getQuranClient_miss by (by left). cbn. intros [= <-].
      eexists _, (environment_or_default config).
      by rewrite lookup_app_r, Nat.sub_diag.
  - unfold clearClientCache. destruct (cachedClient st) eqn:Hc; cbn; [done|].
    by rewrite Hc.
  - intros Hh. destruct (IH h Hh) as (o & env & Ho & Hk & Hurl).
    destruct (alter_keeps_options
                (λ o, {| options := options o; accessToken := Some token |})
                (heap st) h' h o (λ _, eq_refl) Ho) as (o' & Ho' & Hopt).
    exists o', env. by rewrite Hopt.
Qed.

Lemma cached_client_matches_fingerprint_witness :
  ∃ o env,
    heap (run [OpGet sample_config; OpClear; OpGet prelive_config]) !! 1 = Some o ∧
    cachedConfig (run [OpGet sample_config; OpClear; OpGet prelive_config])
      = Some (opt_clientId (options o) +:+ ":" +:+ QuranEnvironment_value env) ∧
    opt_contentBaseUrl (options o) = contentBaseUrl (ENVIRONMENT_CONFIG env) ∧
    opt_authBaseUrl (options o) = authBaseUrl (ENVIRONMENT_CONFIG env).
Proof.
  apply (cached_client_matches_fingerprint
           (run [OpGet sample_config; OpClear; OpGet prelive_config]) 1).
  - apply reachable_run.
  - reflexivity.
Defined.

Lemma clearClientCache_cells (st : Store) :
  cachedClient (clearClientCache st) = None.
Proof.
  unfold clearClientCache. destruct (cachedClient st) eqn:Hc; cbn; [done|].
  by rewrite Hc.
Qed.

(** X5. The fingerprint leaves out the secret and the language, and it
    shows: starting from an empty cache, a call with [C1] and then a call
    with [C2] of the same [clientId] and environment returns a client
    constructed from [C1], with the secret and the default language of
    [C1], whatever those of [C2] are. Only after [clearClientCache] does a
    call with [C2] return a client constructed from [C2]. *)
Theorem rotated_secret_needs_invalidation (st : Store) (C1 C2 : QuranConfig) :
  cachedClient st = None →
  clientId C1 = clientId C2 →
  environment_or_default C1 = environment_or_default C2 →
  let r2 := getQuranClient C2 (getQuranClient C1 st).2 in
  let r3 := getQuranClient C2 (clearClientCache r2.2) in
  options <$> heap r2.2 !! r2.1 = Some (createQuranClient_options C1) ∧
  options <$> heap r3.2 !! r3.1 = Some (createQuranClient_options C2).
Proof.
  intros Hc Hid Henv r2 r3.
  assert (getQuranClient C1 st
          = (length (heap st),
             {| heap := heap st ++ [ {| options := createQuranClient_options C1;
                                        accessToken := None |} ];
                cachedClient := Some (length (heap st));
                cachedConfig := Some (getConfigKey C1) |})) as H1
    by (apply getQuranClient_miss; by left).
  assert (r2 = (getQuranClient C1 st)) as H2.
  { subst r2. rewrite H1. cbn [snd].
    apply (getQuranClient_hit C2 _ (length (heap st))); [done|]. cbn.
    by rewrite (getConfigKey_same C1 C2). }
  clearbody r2. subst r2. rewrite H1 in *. cbn in *. split.
  - rewrite lookup_app_r by done. rewrite Nat.sub_diag. reflexivity.
  - subst r3. rewrite getQuranClient_miss by (left; apply clearClientCache_cells).
    cbn [fst snd heap].
    rewrite lookup_app_r by done. rewrite Nat.sub_diag. reflexivity.
Qed.

Lemma rotated_secret_needs_invalidation_witness :
  opt_clientSecret <$>
    (options <$>
       heap (getQuranClient rotated_secret_config
               (getQuranClient sample_config initial).2).2
       !! (getQuranClient rotated_secret_config
             (getQuranClient sample_config initial).2).1)
  = Some "s3cret".
Proof.
  destruct (rotated_secret_needs_invalidation initial sample_config
              rotated_secret_config eq_refl eq_refl eq_refl) as [H _].
  cbv zeta in H. by rewrite H.
Defined.

(** X6. The cache has one entry. Going from [C1] to a configuration [C2]
    with another fingerprint and back to [C1] constructs a client each
    time: the third call does not find the client of the first, which is
    still allocated and was not told to drop its token. *)
Theorem alternating_configurations (st : Store) (C1 C2 : QuranConfig) :
  reachable st →
  clientId C1 ≠ clientId C2 ∨
  environment_or_default C1 ≠ environment_or_default C2 →
  let r1 := getQuranClient C1 st in
  let r2 := getQuranClient C2 r1.2 in
  let r3 := getQuranClient C1 r2.2 in
  r3.1 ≠ r1.1 ∧ r3.1 ≠ r2.1 ∧
  length (heap r3.2) = length (heap r1.2) + 2 ∧
  heap r3.2 !! r1.1 = heap r1.2 !! r1.1.
Proof.
  intros Hreach Hdiff r1 r2 r3.
  destruct (getQuranClient_cached C1 st) as [Hc1 Hk1]. fold r1 in Hc1, Hk1.
  assert (r1.1 < length (heap r1.2)) as Hlt.
  { apply (cache_valid_getQuranClient C1 st); [|done].
    by apply reachable_cache_valid. }
  assert (getConfigKey C1 ≠ getConfigKey C2) as Hkeys.
  { intros Heq%getConfigKey_inj. destruct Hdiff, Heq; done. }
  assert (r2 = (length (heap r1.2),
                {| heap := heap r1.2 ++ [ {| options := createQuranClient_options C2;
                                             accessToken := None |} ];
                   cachedClient := Some (length (heap r1.2));
                   cachedConfig := Some (getConfigKey C2) |})) as H2.
  { subst r2. apply getQuranClient_miss. right. rewrite Hk1. by intros [= ?]. }
  assert (r3 = (length (heap r2.2),
                {| heap := heap r2.2 ++ [ {| options := createQuranClient_options C1;
                                             accessToken := None |} ];
                   cachedClient := Some (length (heap r2.2));
                   cachedConfig := Some (getConfigKey C1) |})) as H3.
  { subst r3. apply getQuranClient_miss. right. rewrite H2. cbn.
    intros [= ?]. by apply Hkeys. }
  clearbody r1 r2 r3. subst r2 r3. cbn. rewrite !length_app. cbn.
  split; [lia|]. split; [lia|]. split; [lia|].
  rewrite !lookup_app_l; [done|lia|]. rewrite length_app. cbn. lia.
Qed.

Lemma alternating_configurations_witness :
  (getQuranClient sample_config
     (getQuranClient prelive_config (getQuranClient sample_config initial).2).2).1
  ≠ (getQuranClient sample_config initial).1.
Proof.
  apply (alternating_configurations initial sample_config prelive_config
           reachable_initial).
  right. discriminate.
Defined.

Lemma reachable_cells (st : Store) :
  reachable st → cachedClient st = None → cachedConfig st = None.
Proof.
  induction 1 as [|st op _ IH]; [done|].
  destruct op as [config| |h token]; cbn.
  - by destruct (getQuranClient_cached config st) as [-> _].
  - unfold clearClientCache. by destruct (cachedClient st).
  - done.
Qed.

(** X7. Invalidating an empty cache does nothing: in a reachable state
    where no client is cached, [clearClientCache] leaves the state as it
    is, no client is told to drop a token. Hence invalidating twice is the
    same as invalidating once. *)
Theorem clearClientCache_empty (st : Store) :
  reachable st →
  (cachedClient st = None → clearClientCache st = st) ∧
  clearClientCache (clearClientCache st) = clearClientCache st.
Proof.
  intros Hreach.
  assert (∀ st', reachable st' → cachedClient st' = None → clearClientCache st' = st')
    as Hempty.
  { intros st' Hreach' Hc. pose proof (reachable_cells _ Hreach' Hc) as Hk.
    unfold clearClientCache. rewrite Hc.
    destruct st' as [hp c k]. cbn in *. by subst. }
  split; [by apply Hempty|].
  apply Hempty; [apply (reachable_step st OpClear Hreach)|].
  unfold clearClientCache. destruct (cachedClient st) eqn:Hc; cbn; [done|].
  by rewrite Hc.
Qed.

Lemma clearClientCache_empty_witness :
  clearClientCache (clearClientCache (run [OpGet sample_config]))
  = clearClientCache (run [OpGet sample_config]).
Proof.
  apply (clearClientCache_empty (run [OpGet sample_config])).
  apply reachable_run.
Defined.

End cache_lifecycle.

(** ** The environment selector, [init] and the test scripts *)
Section startup.

Import Js Client Samples.

Lemma toLowerCase_char_idemp (c : ascii) :
  toLowerCase_char (toLowerCase_char c) = toLowerCase_char c.
Proof. by destruct c as [[] [] [] [] [] [] [] []]. Qed.

Lemma toLowerCase_idemp (s : string) : toLowerCase (toLowerCase s) = toLowerCase s.
Proof.
  induction s as [|c s IH]; [done|]. cbn. by rewrite toLowerCase_char_idemp, IH.
Qed.

Lemma toLowerCase_empty (s : string) : toLowerCase s = "" ↔ s = "".
Proof. by destruct s. Qed.

(** X8. The selector parsing of [init] is the inverse of the enum on its
    two values and does not see the case of letters: the string of an
    environment parses back to that environment, and a selector parses as
    its lower-case form does. *)
Theorem quranEnv_round_trip :
  (∀ e, Index.quranEnv (Some (QuranEnvironment_value e)) = e) ∧
  (∀ s, Index.quranEnv (Some (toLowerCase s)) = Index.quranEnv (Some s)).
Proof.
  split; [by intros []|].
  intros s. unfold Index.quranEnv. cbn. by rewrite toLowerCase_idemp.
Qed.

(** X9. Every agent of a process shares one client: when two calls of
    [init] read the same [QURAN_CLIENT_ID] and selectors that resolve to
    the same environment, the second obtains the handle of the first and
    changes nothing, in any state of the cache and even when the two read
    different secrets. *)
Theorem init_shares_client (st : Store) (env1 env2 : Index.Env)
    (props1 props2 : Index.Props) :
  Index.QURAN_CLIENT_ID env1 = Index.QURAN_CLIENT_ID env2 →
  Index.quranEnv (Index.QURAN_ENV env1) = Index.quranEnv (Index.QURAN_ENV env2) →
  let r1 := Index.init env1 props1 st in
  let r2 := Index.init env2 props2 r1.2 in
  r2.1.1 = r1.1.1 ∧ r2.2 = r1.2.
Proof.
  intros Hid Henv r1 r2. subst r1 r2. unfold Index.init.
  destruct (getQuranClient_cached (Index.init_config env1) st) as [Hc Hk].
  destruct (getQuranClient (Index.init_config env1) st) as [h1 st1]. cbn in *.
  rewrite (getQuranClient_hit (Index.init_config env2) st1 h1); [done..|].
  rewrite Hk. f_equal. apply getConfigKey_same; [done|]. cbn. done.
Qed.

Lemma init_shares_client_witness :
  (Index.init worker_env_rotated some_user
     (Index.init worker_env some_user initial).2).1.1
  = (Index.init worker_env some_user initial).1.1.
Proof.
  apply (init_shares_client initial worker_env worker_env_rotated some_user some_user);
    reflexivity.
Defined.

(** X10. The test scripts leave with exit code 1 exactly when
    [QURAN_CLIENT_ID] or [QURAN_CLIENT_SECRET] is unset or empty, and then
    construct no client. Otherwise they construct one client, outside the
    cache: it carries the two credentials as given, the default language
    English and the endpoints of the environment the selector resolves to
    (as in [init]), and the cache cells are left alone. *)
Theorem runTests_start_spec (env : Scripts.ProcessEnv) (st : Store) :
  match Scripts.runTests_start env st with
  | Scripts.Exit code =>
      code = 1%Z ∧
      (truthy (Scripts.QURAN_CLIENT_ID env) = false ∨
       truthy (Scripts.QURAN_CLIENT_SECRET env) = false)
  | Scripts.Started client st1 =>
      ∃ id secret,
        Scripts.QURAN_CLIENT_ID env = Some id ∧ id ≠ "" ∧
        Scripts.QURAN_CLIENT_SECRET env = Some secret ∧ secret ≠ "" ∧
        heap st !! client = None ∧
        heap st1
        = heap st ++
          [ {| options :=
                 {| opt_clientId := id;
                    opt_clientSecret := secret;
                    opt_contentBaseUrl :=
                      contentBaseUrl
                        (ENVIRONMENT_CONFIG (Index.quranEnv (Scripts.QURAN_ENV env)));
                    opt_authBaseUrl :=
                      authBaseUrl
                        (ENVIRONMENT_CONFIG (Index.quranEnv (Scripts.QURAN_ENV env)));
                    opt_defaults_language := Language_ENGLISH |};
               accessToken := None |} ] ∧
        heap st1 !! client = last (heap st1) ∧
        cachedClient st1 = cachedClient st ∧
        cachedConfig st1 = cachedConfig st
  end.
Proof.
  unfold Scripts.runTests_start, truthy, or_else. cbv zeta.
  destruct (Scripts.QURAN_CLIENT_ID env) as [id|] eqn:Hid; cbn [negb orb];
    [|by split; [|left]].
  destruct (String.eqb_spec id "") as [->|Hne]; cbn [negb orb]; [by split; [|left]|].
  destruct (Scripts.QURAN_CLIENT_SECRET env) as [secret|] eqn:Hsec;
    cbn [negb orb]; [|by split; [|right]].
  destruct (String.eqb_spec secret "") as [->|Hne']; cbn [negb]; [by split; [|right]|].
  unfold createQuranClient, new_QuranClient, createQuranClient_options. cbn.
  exists id, secret.
  split; [done|]. split; [done|]. split; [done|]. split; [done|].
  split; [by apply lookup_ge_None_2|]. split; [done|].
  split; [|done]. rewrite last_snoc. by rewrite lookup_app_r, Nat.sub_diag.
Qed.

End startup.

(** ** More on the handlers *)
Section handlers.

Import Js Tools Samples.

Lemma string_of_Z_nonempty (n : Z) : string_of_Z n ≠ "".
Proof.
  unfold string_of_Z. destruct (Z.to_int n) as [u|u]; [|done].
  by destruct u.
Qed.

(** X11. When the catalogue call of the client raises an error,
    [getAvailableTranslations] made that one call and returns an envelope
    with [isError] set, whose one text block names the failure category
    and the message of the error; the filter plays no part. *)
Theorem getAvailableTranslations_error_envelope (client : QuranClient)
    (params : GetAvailableTranslationsParams) (error : JsError) :
  resources_findAllTranslations client () = inl error →
  let r := getAvailableTranslations client params in
  r.1 = [Call_resources_findAllTranslations] ∧
  isError r.2 = Some true ∧
  content r.2 = [ {| type := "text"; text := envelope_text r.2 |} ] ∧
  contains (envelope_text r.2) "Error fetching translations" ∧
  contains (envelope_text r.2) ("Error Type: " +:+ errorType error) ∧
  contains (envelope_text r.2) ("Message: " +:+ errorMessage error) ∧
  r.2 = (getAvailableTranslations client {| language := None |}).2.
Proof.
  intros Hcall r. subst r. unfold getAvailableTranslations, getAvailableTranslations_try.
  cbn. rewrite Hcall. cbn.
  split; [done|]. split; [done|]. split; [done|].
  unfold getAvailableTranslations_error_text. split; [|split; [|split; [|done]]].
  - apply contains_app_l. by exists "❌ **", "**".
  - do 3 apply contains_app_r.
    rewrite <- (app_assoc_string "Error Type: " (errorType error)).
    apply contains_app_l, contains_refl.
  - do 6 apply contains_app_r.
    rewrite <- (app_assoc_string "Message: " (errorMessage error)).
    apply contains_app_l, contains_refl.
Qed.

Lemma getAvailableTranslations_error_envelope_witness :
  isError (getAvailableTranslations failing_client {| language := Some "urdu" |}).2
  = Some true.
Proof.
  apply (getAvailableTranslations_error_envelope failing_client
           {| language := Some "urdu" |}
           {| message := None; status := Some (StatusNumber 0) |}).
  reflexivity.
Defined.

(** X12. An error envelope never shows an empty category or an empty
    message: a status that is absent, zero or the empty string is shown as
    [error], a message that is absent or empty as [Unknown error
    occurred]. *)
Theorem error_fields_never_empty (error : JsError) :
  errorType error ≠ "" ∧
  errorMessage error ≠ "" ∧
  (∀ m, errorType {| message := m; status := None |} = "error" ∧
        errorType {| message := m; status := Some (StatusNumber 0) |} = "error" ∧
        errorType {| message := m; status := Some (StatusString "") |} = "error") ∧
  (∀ st, errorMessage {| message := None; status := st |} = "Unknown error occurred" ∧
         errorMessage {| message := Some ""; status := st |} = "Unknown error occurred").
Proof.
  split; [|split; [|done]].
  - unfold errorType. destruct (status error) as [[n|s]|]; [| |done].
    + destruct (Z.eqb_spec n 0); [done|]. apply string_of_Z_nonempty.
    + by destruct (String.eqb_spec s "").
  - unfold errorMessage, or_else. destruct (message error) as [m|]; [|done].
    by destruct (String.eqb_spec m "").
Qed.

(** X13. An empty filter is no filter: [getAvailableTranslations] with
    the empty string for [language] makes the same call and returns the
    same envelope as without [language]. *)
Theorem getAvailableTranslations_empty_filter (client : QuranClient) :
  getAvailableTranslations client {| language := Some "" |}
  = getAvailableTranslations client {| language := None |}.
Proof.
  unfold getAvailableTranslations, getAvailableTranslations_try. cbn.
  by destruct (resources_findAllTranslations client ()).
Qed.

(** X14. On an empty catalogue and without a filter the handler answers
    with an envelope that is not an error; its text reports a total of
    zero, says that no translations were found, with no mention of a
    language, and lists languages to try. No usage example is given and no
    grouping takes place. *)
Theorem getAvailableTranslations_empty_catalogue (client : QuranClient)
    (l : option string) :
  truthy l = false →
  resources_findAllTranslations client () = inr [] →
  let e := (getAvailableTranslations client {| language := l |}).2 in
  isError e = None ∧
  envelope_text e
  = "📚 **All Available Translations** (0 total)" +:+ nl +:+ nl
      +:+ "No translations found." +:+ nl +:+ nl
      +:+ "Try using common languages like: english, urdu, arabic, spanish, french, turkish, bengali, indonesian, russian, persian".
Proof.
  intros Hl Hcall e. subst e.
  unfold getAvailableTranslations, getAvailableTranslations_try. cbn.
  rewrite Hcall. unfold getAvailableTranslations_response.
  assert (filterTranslations l [] = []) as ->.
  { destruct l as [s|]; [|done]. unfold filterTranslations.
    by destruct (truthy (Some s)). }
  unfold header, no_translations. rewrite Hl. cbn. split; reflexivity.
Qed.

Lemma getAvailableTranslations_empty_catalogue_witness :
  isError (getAvailableTranslations empty_client {| language := None |}).2 = None.
Proof.
  apply (getAvailableTranslations_empty_catalogue empty_client None); reflexivity.
Defined.

(** X15. The filter does not see the case of letters, on either side: two
    non-empty filters with the same lower-case form select the same
    entries, and an entry is selected or not whatever the case of the
    letters of its language name. *)
Theorem filter_case_insensitive (l l' : string) (all : list TranslationResource) :
  l ≠ "" →
  toLowerCase l = toLowerCase l' →
  filterTranslations (Some l) all = filterTranslations (Some l') all ∧
  filterTranslations (Some (toLowerCase l)) all = filterTranslations (Some l) all ∧
  (∀ t name,
     languageName t = Some name →
     matches_language l t
     = matches_language l
         {| id := id t; name := Tools.name t; authorName := authorName t;
            languageName := Some (toLowerCase name) |}).
Proof.
  intros Hl Heq.
  assert (l' ≠ "") as Hl'.
  { intros ->. apply Hl. by apply toLowerCase_empty. }
  assert (toLowerCase l ≠ "") as Hl0 by by rewrite toLowerCase_empty.
  rewrite !filterTranslations_Some by done.
  split; [|split].
  - apply List.filter_ext. intros t. unfold matches_language. by rewrite Heq.
  - apply List.filter_ext. intros t. unfold matches_language.
    by rewrite toLowerCase_idemp.
  - intros t name Hname. unfold matches_language. cbn. rewrite Hname.
    by rewrite toLowerCase_idemp.
Qed.

Lemma filter_case_insensitive_witness :
  filterTranslations (Some "ENGLISH") sample_catalogue
  = filterTranslations (Some "English") sample_catalogue.
Proof.
  assert ("ENGLISH" ≠ "") as Hne by discriminate.
  destruct (filter_case_insensitive "ENGLISH" "English" sample_catalogue Hne eq_refl)
    as [H _].
  exact H.
Defined.

Lemma mjoin_push_item (k : string) (i : GroupItem) (b : Groups) :
  mjoin (push_item k i b).*2 ≡ₚ mjoin b.*2 ++ [i].
Proof.
  induction b as [|[k' items] b IH]; cbn; [done|].
  destruct (String.eqb k' k); cbn.
  - rewrite <- !(assoc_L (++)). f_equiv. apply Permutation_app_comm.
  - by rewrite IH, (assoc_L (++)).
Qed.

Lemma groupByLanguage_flat (ts : list TranslationResource) (b : Groups) :
  groupByLanguage ts = inr b → mjoin b.*2 ≡ₚ group_item <$> ts.
Proof.
  revert b. induction ts as [|t ts IH] using rev_ind; intros b.
  - by intros [= <-].
  - rewrite groupByLanguage_snoc.
    destruct (groupByLanguage ts) as [error|b0]; unfold group_step; cbv zeta;
      [done|].
    destruct (inherited (group_key t)); [done|]. intros [= <-].
    by rewrite mjoin_push_item, (IH b0), fmap_app.
Qed.

Lemma own_properties_of_keys (b : Groups) :
  NoDup b.*1 → (λ k, default [] (own_property b k)) <$> b.*1 = b.*2.
Proof.
  induction b as [|[k items] b IH]; [done|].
  intros [Hk Hnd]%NoDup_cons. cbn. rewrite String.eqb_refl. cbn. f_equal.
  rewrite <- IH by done. apply Forall_fmap_ext, Forall_forall.
  intros k' Hin. destruct (String.eqb_spec k k') as [->|Hne]; [by destruct Hk|done].
Qed.

(** X16. Grouping loses nothing and repeats nothing: when the grouping
    loop runs through, the groups taken in the order they are rendered
    hold, all together, exactly the entries of the catalogue, each once;
    the sizes shown in the group headings add up to the total shown in the
    heading of the text. The same loop groups the catalogue in
    [test_resources.ts]. *)
Theorem grouping_conserves_entries (all : list TranslationResource) (b : Groups) :
  groupByLanguage all = inr b →
  let rendered := (λ k, default [] (own_property b k)) <$> sorted_keys b in
  mjoin rendered ≡ₚ group_item <$> all ∧
  sum_list (length <$> rendered) = length all ∧
  Forall (λ items, items ≠ []) rendered.
Proof.
  intros Hb rendered.
  destruct (groupByLanguage_inr all b Hb) as (_ & Hnd & Hown).
  assert (mjoin rendered ≡ₚ group_item <$> all) as Hperm.
  { subst rendered. unfold sorted_keys.
    rewrite (merge_sort_Permutation String.le b.*1).
    rewrite own_properties_of_keys by done. by apply groupByLanguage_flat. }
  split; [done|]. split.
  - by rewrite <- length_join, Hperm, length_fmap.
  - subst rendered. apply Forall_fmap, Forall_forall. intros k Hk. cbn.
    unfold sorted_keys in Hk. rewrite merge_sort_Permutation in Hk.
    apply own_property_keys in Hk as [items Hitems]. rewrite Hitems. cbn.
    rewrite Hown in Hitems. destruct (entries_of k all); [done|].
    by injection Hitems as <-.
Qed.

Lemma grouping_conserves_entries_witness :
  ∃ b,
    groupByLanguage sample_catalogue = inr b ∧
    sum_list (length <$> ((λ k, default [] (own_property b k)) <$> sorted_keys b))
    = length sample_catalogue.
Proof.
  eexists. split; [reflexivity|].
  apply (grouping_conserves_entries sample_catalogue _ eq_refl).
Defined.

Lemma getVerse_translation_appends (r : string) (t : Translation) :
  getVerse_translation r t = r +:+ getVerse_translation "" t.
Proof. unfold getVerse_translation. by rewrite !app_assoc_string. Qed.

Lemma getVerse_tafsir_appends (r : string) (t : Tafsir) :
  getVerse_tafsir r t = r +:+ getVerse_tafsir "" t.
Proof. unfold getVerse_tafsir. by rewrite !app_assoc_string. Qed.

Lemma getVerse_word_appends (r : string) (i : nat) (w : Word) :
  getVerse_word r i w = r +:+ getVerse_word "" i w.
Proof. reflexivity. Qed.

Lemma forEach_indexed_appends {A : Type} (f : string → nat → A → string) :
  (∀ r i x, f r i x = r +:+ f "" i x) →
  ∀ l i r, forEach_indexed f i l r = r +:+ join (imap (λ j, f "" (i + j)) l).
Proof.
  intros Hf l. induction l as [|x l IH]; intros i r; cbn.
  - by rewrite app_nil_r_string.
  - rewrite IH, Hf, Nat.add_0_r, app_assoc_string. do 3 f_equal.
    apply imap_ext. intros j y _. cbn. f_equal. lia.
Qed.

(** The accumulated text is the four parts one after the other. *)
Lemma getVerse_response_parts (includeWords : bool) (verse : Verse) :
  getVerse_response includeWords verse
  = verse_head verse +:+ translations_section verse +:+ tafsirs_section verse
      +:+ words_section includeWords verse.
Proof.
  unfold getVerse_response, verse_head, translations_section, tafsirs_section,
    words_section. cbv zeta.
  destruct (translations verse) as [[|t ts]|], (tafsirs verse) as [[|f fs]|],
    includeWords, (words verse) as [[|w ws]|];
    rewrite ?(forEach_indexed_appends _ getVerse_word_appends),
      ?(foldl_appends _ getVerse_tafsir_appends),
      ?(foldl_appends _ getVerse_translation_appends),
      ?app_assoc_string, ?app_nil_r_string; reflexivity.
Qed.

Lemma contains_join {A : Type} (g : A → string) (l : list A) (x : A) :
  x ∈ l → contains (join (g <$> l)) (g x).
Proof.
  induction 1 as [x l|x y l _ IH]; cbn.
  - apply contains_app_l, contains_refl.
  - by apply contains_app_r.
Qed.

(** X17. The text of a successful [getVerse] begins with the heading, the
    Arabic text and the four metadata lines, and it contains the text of
    every translation and of every commentary the client returned with
    the verse. When the verse comes with no translations and no
    commentaries (absent or empty) and words were not asked for, the text
    is that beginning and nothing else. *)
Theorem getVerse_text_sections (client : QuranClient) (params : GetVerseParams)
    (verse : Verse) :
  verses_findByKey client (p_verseKey params) (getVerse_options params) = inr verse →
  let response := envelope_text (getVerse client params).2 in
  (∃ rest, response = verse_head verse +:+ rest) ∧
  (∀ ts t, translations verse = Some ts → t ∈ ts → contains response (tr_text t)) ∧
  (∀ ts t, tafsirs verse = Some ts → t ∈ ts → contains response (tf_text t)) ∧
  (default [] (translations verse) = [] →
   default [] (tafsirs verse) = [] →
   p_includeWords params = false →
   response = verse_head verse).
Proof.
  intros Hcall response. subst response. unfold getVerse. cbn. rewrite Hcall. cbn.
  rewrite getVerse_response_parts.
  split; [by eexists|]. split; [|split].
  - intros ts t Hts Hin. apply contains_app_r, contains_app_l.
    unfold translations_section. rewrite Hts.
    destruct ts as [|t0 ts0]; [by apply elem_of_nil in Hin|].
    apply contains_app_r, contains_app_r, contains_app_l.
    assert (contains (getVerse_translation "" t) (tr_text t)) as (pre & post & Heq).
    { unfold getVerse_translation. apply contains_app_r, contains_app_l, contains_refl. }
    destruct (contains_join (getVerse_translation "") _ _ Hin) as (pre' & post' & ->).
    rewrite Heq. exists (pre' +:+ pre), (post +:+ post').
    by rewrite !app_assoc_string.
  - intros ts t Hts Hin. do 2 apply contains_app_r. apply contains_app_l.
    unfold tafsirs_section. rewrite Hts.
    destruct ts as [|t0 ts0]; [by apply elem_of_nil in Hin|].
    apply contains_app_r, contains_app_r, contains_app_l.
    assert (contains (getVerse_tafsir "" t) (tf_text t)) as (pre & post & Heq).
    { unfold getVerse_tafsir. apply contains_app_r, contains_app_l, contains_refl. }
    destruct (contains_join (getVerse_tafsir "") _ _ Hin) as (pre' & post' & ->).
    rewrite Heq. exists (pre' +:+ pre), (post +:+ post').
    by rewrite !app_assoc_string.
  - intros Hts Hfs ->. unfold translations_section, tafsirs_section, words_section.
    destruct (translations verse) as [[|? ?]|]; [|done|];
      (destruct (tafsirs verse) as [[|? ?]|]; [|done|]);
      by rewrite !app_nil_r_string.
Qed.

Lemma getVerse_text_sections_witness :
  envelope_text (getVerse serving_client sample_params).2 = verse_head ayat_al_kursi.
Proof.
  destruct (getVerse_text_sections serving_client sample_params ayat_al_kursi eq_refl)
    as (_ & _ & _ & H).
  exact (H eq_refl eq_refl eq_refl).
Defined.

(** X18. The word-by-word breakdown is given only on request. With
    [includeWords] false the text does not depend on the words of the
    verse. With [includeWords] true and at least one word, the text is the
    one without the breakdown followed by a heading and one line per
    word, in order, numbered from 1, showing the Uthmani text of the word,
    else its Imlaei text, else [N/A]. *)
Theorem getVerse_word_breakdown (verse : Verse) :
  getVerse_response false verse
  = getVerse_response false
      {| verseKey := verseKey verse; textUthmani := textUthmani verse;
         chapterId := chapterId verse; verseNumber := verseNumber verse;
         pageNumber := pageNumber verse; juzNumber := juzNumber verse;
         translations := translations verse; tafsirs := tafsirs verse;
         words := None |} ∧
  (words verse = None ∨ words verse = Some [] →
   getVerse_response true verse = getVerse_response false verse) ∧
  (∀ w ws, words verse = Some (w :: ws) →
     getVerse_response true verse
     = getVerse_response false verse
         +:+ "**Word-by-Word Breakdown:**" +:+ nl
         +:+ join (imap (λ index word,
                           string_of_nat (index + 1) +:+ ". "
                             +:+ or_else (w_textUthmani word)
                                   (or_else (w_textImlaei word) "N/A")
                             +:+ nl) (w :: ws))).
Proof.
  rewrite !getVerse_response_parts. split; [done|]. split.
  - unfold words_section. by intros [-> | ->].
  - intros w ws Hws. change (words_section false verse) with "".
    unfold words_section. rewrite Hws.
    rewrite !app_assoc_string. reflexivity.
Qed.

Lemma getVerse_word_breakdown_witness :
  getVerse_response true three_words
  = getVerse_response false three_words
      +:+ "**Word-by-Word Breakdown:**" +:+ nl
      +:+ "1. qul" +:+ nl +:+ "2. huwa" +:+ nl +:+ "3. N/A" +:+ nl.
Proof.
  destruct (getVerse_word_breakdown three_words) as (_ & _ & H).
  rewrite (H _ _ eq_refl). reflexivity.
Defined.

End handlers.
